(** * comfforts/cache: the persistence and synchronisation lifecycle

    A shallow embedding of [cache.go]: the [cacheService] facade over an
    expiring key/value store, its JSON snapshot file and the optional
    remote copy of that file.

    The operating system, the JSON codec, the cloud client and the clock
    are outside the repository.  They are modelled by a [World]: the files
    and directories, the remote objects, a schedule of clock readings, a
    table of external calls that fail for reasons of their own, and the
    trace of external calls made so far.  Logging does not touch the cache
    state and is left out. *)

From Stdlib Require Import ZArith Lia.
From stdpp Require Import gmap strings list fin_maps sorting.

Local Open Scope Z_scope.
Local Open Scope string_scope.

(** ** A state monad with panics

    [None] is a Go runtime panic (calling a nil function value). *)

Definition ST (S A : Type) : Type := S -> option (A * S).

Definition ret {S A} (a : A) : ST S A := fun s => Some (a, s).

Definition bind {S A B} (m : ST S A) (k : A -> ST S B) : ST S B :=
  fun s => match m s with
           | Some (a, s') => k a s'
           | None => None
           end.

Definition panic {S A} : ST S A := fun _ => None.

Definition get {S} : ST S S := fun s => Some (s, s).

Definition gets {S A} (f : S -> A) : ST S A := fun s => Some (f s, s).

Definition modify {S} (f : S -> S) : ST S unit := fun s => Some (tt, f s).

Notation "x <- m ;; k" := (bind m (fun x => k))
  (at level 100, m at next level, right associativity).
Notation "m ;;; k" := (bind m (fun _ => k))
  (at level 100, right associativity).

(** Run an action on the second component of a pair state. *)
Definition in_snd {X S A} (m : ST S A) : ST (X * S) A :=
  fun xs => match m xs.2 with
            | Some (a, s') => Some (a, (xs.1, s'))
            | None => None
            end.

(** [m] run from [s] returns, and its result and final state satisfy
    [P]. *)
Definition wp {S A} (m : ST S A) (s : S) (P : A -> S -> Prop) : Prop :=
  exists a s', m s = Some (a, s') /\ P a s'.

(** ** Time

    An instant is a number of nanoseconds since the Unix epoch; a
    [time.Duration] is an int64 number of nanoseconds. *)

Definition Second : Z := 1000000000.
Definition Minute : Z := 60 * Second.
Definition Hour : Z := 60 * Minute.

Definition wrap64 (z : Z) : Z := (z + 2 ^ 63) mod 2 ^ 64 - 2 ^ 63.

(** [Time.UnixNano] is an int64 and wraps; [Time.Unix] is the floor of the
    seconds. *)
Definition UnixNano (t : Z) : Z := wrap64 t.
Definition Unix (t : Z) : Z := t / Second.

(** ** Strings in JSON

    [encoding/json] writes a Go string, the key of a map included, with
    every byte that is not part of a well-formed UTF-8 sequence replaced
    by U+FFFD, and reading the text back gives the UTF-8 bytes of that
    rune.  Every other byte comes back as it was, escaped on the way or
    not. *)

(** [first] and [acceptRanges] of [unicode/utf8]: for a leading byte, the
    length of its sequence and the bounds of its second byte. *)
Definition utf8_first (b : N) : option (nat * N * N) :=
  (if b <? 0xC2 then None
   else if b <=? 0xDF then Some (2%nat, 0x80, 0xBF)
   else if b =? 0xE0 then Some (3%nat, 0xA0, 0xBF)
   else if b =? 0xED then Some (3%nat, 0x80, 0x9F)
   else if b <=? 0xEF then Some (3%nat, 0x80, 0xBF)
   else if b =? 0xF0 then Some (4%nat, 0x90, 0xBF)
   else if b <=? 0xF3 then Some (4%nat, 0x80, 0xBF)
   else if b =? 0xF4 then Some (4%nat, 0x80, 0x8F)
   else None)%N.

Definition in_range (lo hi : N) (b : Ascii.ascii) : bool :=
  ((lo <=? Ascii.N_of_ascii b) && (Ascii.N_of_ascii b <=? hi))%N.

(** [utf8.DecodeRuneInString] on a string that starts with the byte [b],
    not an ASCII one, and goes on with [rest]: the width of the rune, or
    [None] for the error rune of width one. *)
Definition rune_width (b : Ascii.ascii) (rest : string) : option nat :=
  match utf8_first (Ascii.N_of_ascii b) with
  | None => None
  | Some (sz, lo, hi) =>
      match rest with
      | String s1 rest =>
          if negb (in_range lo hi s1) then None
          else if decide (sz = 2%nat) then Some 2%nat
          else match rest with
          | String s2 rest =>
              if negb (in_range 0x80 0xBF s2) then None
              else if decide (sz = 3%nat) then Some 3%nat
              else match rest with
              | String s3 _ =>
                  if negb (in_range 0x80 0xBF s3) then None else Some 4%nat
              | EmptyString => None
              end
          | EmptyString => None
          end
      | EmptyString => None
      end
  end.

(** The UTF-8 bytes of U+FFFD. *)
Definition replacement_rune : string :=
  String (Ascii.ascii_of_N 0xEF) (String (Ascii.ascii_of_N 0xBF)
    (String (Ascii.ascii_of_N 0xBD) EmptyString)).

(** A string as the encoder's [string] method writes it and the decoder
    reads it back; [pending] counts the bytes still to copy of a rune
    found well formed. *)
Fixpoint json_requote (pending : nat) (s : string) : string :=
  match s with
  | EmptyString => EmptyString
  | String b rest =>
      match pending with
      | S n => String b (json_requote n rest)
      | O =>
          if (Ascii.N_of_ascii b <? 0x80)%N then String b (json_requote 0 rest)
          else match rune_width b rest with
          | Some sz => String b (json_requote (pred sz) rest)
          | None => replacement_rune +:+ json_requote 0 rest
          end
      end
  end.

(** What a map key is once written and read back. *)
Definition json_key (k : string) : string := json_requote 0 k.

(** ** Errors *)

Inductive call : Type :=
| OsStat (path : string)
| OsMkdirAll (path : string)
| OsCreate (path : string)
| OsOpen (path : string)
| OsRemove (path : string)
| JsonEncode
| JsonDecode
| NewCloudStorageClient
| NewCloudFileRequest
| UploadFile
| DownloadFile
| DeleteObject
| CloseClient.

#[global] Instance call_eq_dec : EqDecision call.
Proof. solve_decision. Defined.

Inductive error : Type :=
| NewAppError (msg : string)
| WrapError (err : error) (msg : string)
| ErrNotExist (path : string)
| CallError (c : call)
| ItemExists (k : string).

Definition IsNotExist (e : error) : bool :=
  match e with ErrNotExist _ => true | _ => false end.

Inductive result (A : Type) : Type :=
| Ok (a : A)
| Err (e : error).
Arguments Ok {A} a.
Arguments Err {A} e.

(** Constants of [errors.go]. *)
Definition ERROR_SET_CACHE := "error adding key/value to cache".
Definition ERROR_CREATING_CACHE_DIR := "error creating cache directory".
Definition ERROR_GETTING_CACHE_FILE := "error getting cache file".
Definition ERROR_SAVING_CACHE_FILE := "error saving cache file".
Definition ERROR_OPENING_CACHE_FILE := "error opening cache file".
Definition ERROR_LOADING_CACHE_FILE := "error loading cache file".

(** Constants of [cache.go]. *)
Definition DEFAULT_CACHE_FILE_NAME := "cache".
Definition DEFAULT_EXPIRATION : Z := 5 * Minute.
Definition DEFAULT_CLEANUP_INTERVAL : Z := 10 * Minute.

Section Cache.

(** The cached values ([interface{}] in the source), and what a value
    becomes when it is written as JSON and decoded again into an
    [interface{}] (a struct comes back as a map of its fields). *)
Context {Obj : Type}.
Variable json_reparse : Obj -> Obj.

(** The message of [errors.ERROR_MISSING_REQUIRED], a constant of the
    [comfforts/errors] package. *)
Variable ERROR_MISSING_REQUIRED : string.

(** ** The TTL store *)

Record Item : Type := mkItem { Object : Obj; Expiration : Z }.

(** What the JSON decoder makes of a file: an object with the members
    [m], their objects yet to be decoded, or anything else (an empty or
    truncated file included). *)
Inductive content : Type :=
| Snapshot (m : gmap string Item)
| Unparsable.

Record World : Type := mkWorld {
  clock : nat -> Z;                       (* the instants [time.Now] returns, in order *)
  ticks : nat;                            (* how many of them have been read *)
  files : gmap string content;            (* regular files, by path *)
  dirs : gset string;                     (* directories *)
  objects : gmap (string * string) content; (* remote objects, by bucket and name *)
  denied : call -> bool;                  (* external calls that fail on their own *)
  trace : list call                       (* external calls made, latest first *)
}.

Definition set_ticks (n : nat) (w : World) : World :=
  mkWorld (clock w) n (files w) (dirs w) (objects w) (denied w) (trace w).
Definition set_files (f : gmap string content) (w : World) : World :=
  mkWorld (clock w) (ticks w) f (dirs w) (objects w) (denied w) (trace w).
Definition set_dirs (d : gset string) (w : World) : World :=
  mkWorld (clock w) (ticks w) (files w) d (objects w) (denied w) (trace w).
Definition set_objects (o : gmap (string * string) content) (w : World) : World :=
  mkWorld (clock w) (ticks w) (files w) (dirs w) o (denied w) (trace w).
Definition set_trace (t : list call) (w : World) : World :=
  mkWorld (clock w) (ticks w) (files w) (dirs w) (objects w) (denied w) t.

(** [time.Now()] *)
Definition time_Now : ST World Z :=
  fun w => Some (clock w (ticks w), set_ticks (S (ticks w)) w).

(** An external call is recorded; the answer is whether it may proceed. *)
Definition attempt (c : call) : ST World bool :=
  fun w => Some (negb (denied w c), set_trace (c :: trace w) w).

Definition exists_path (p : string) (w : World) : bool :=
  bool_decide (is_Some (files w !! p)) || bool_decide (p ∈ dirs w).

Definition os_Stat (p : string) : ST World (option error) :=
  ok <- attempt (OsStat p) ;;
  w <- get ;;
  if negb ok then ret (Some (CallError (OsStat p)))
  else if exists_path p w then ret None
  else ret (Some (ErrNotExist p)).

Definition os_MkdirAll (p : string) : ST World (option error) :=
  ok <- attempt (OsMkdirAll p) ;;
  if ok then modify (fun w => set_dirs ({[p]} ∪ dirs w) w) ;;; ret None
  else ret (Some (CallError (OsMkdirAll p))).

(** [os.Create] truncates: the file exists and is empty afterwards. *)
Definition os_Create (p : string) : ST World (option error) :=
  ok <- attempt (OsCreate p) ;;
  if ok then modify (fun w => set_files (<[p := Unparsable]> (files w)) w) ;;; ret None
  else ret (Some (CallError (OsCreate p))).

(** A directory can be opened too; reading it is what fails. *)
Definition os_Open (p : string) : ST World (option error) :=
  ok <- attempt (OsOpen p) ;;
  w <- get ;;
  if negb ok then ret (Some (CallError (OsOpen p)))
  else if exists_path p w then ret None
  else ret (Some (ErrNotExist p)).

(** Directories are taken to have entries: [os.Remove] refuses them. *)
Definition os_Remove (p : string) : ST World (option error) :=
  ok <- attempt (OsRemove p) ;;
  w <- get ;;
  if negb ok then ret (Some (CallError (OsRemove p)))
  else if bool_decide (is_Some (files w !! p))
       then modify (set_files (delete p (files w))) ;;; ret None
  else if bool_decide (p ∈ dirs w) then ret (Some (CallError (OsRemove p)))
  else ret (Some (ErrNotExist p)).

(** The members of the object the encoder writes for a map.  It writes
    the entries in ascending order of their keys, compared byte by byte,
    each key as [json_key] has it; the decoder stores the members in the
    order of the text, so that of two keys written alike the later one
    stays. *)
Definition json_member (acc : gmap string Item) (kv : string * Item) : gmap string Item :=
  <[json_key kv.1 := kv.2]> acc.

Definition json_members (items : gmap string Item) : gmap string Item :=
  foldl json_member ∅ (merge_sort (fun a b => String.leb a.1 b.1) (map_to_list items)).

(** Whether, of the entries of a map, none but the one under [k] is
    written under the key [k] is written under, and whether none is
    written under [k']. *)
Definition written_alone (items : gmap string Item) (k : string) : bool :=
  forallb (fun kv => implb (String.eqb (json_key kv.1) (json_key k)) (String.eqb kv.1 k))
          (map_to_list items).

Definition never_written (items : gmap string Item) (k' : string) : bool :=
  forallb (fun kv => negb (String.eqb (json_key kv.1) k')) (map_to_list items).

(** [json.NewEncoder(file).Encode(items)] *)
Definition json_Encode (p : string) (items : gmap string Item) : ST World (option error) :=
  ok <- attempt JsonEncode ;;
  if ok then
    modify (fun w => set_files (<[p := Snapshot (json_members items)]> (files w)) w) ;;; ret None
  else ret (Some (CallError JsonEncode)).

(** [json.NewDecoder(r).Decode(&items)]: the objects come back reparsed. *)
Definition reparsed (m : gmap string Item) : gmap string Item :=
  (fun it => mkItem (json_reparse (Object it)) (Expiration it)) <$> m.

Definition json_Decode (p : string) : ST World (result (gmap string Item)) :=
  ok <- attempt JsonDecode ;;
  w <- get ;;
  match files w !! p with
  | Some (Snapshot m) =>
      if ok then ret (Ok (reparsed m))
      else ret (Err (CallError JsonDecode))
  | _ => ret (Err (CallError JsonDecode))
  end.

(** The remote object store, reached through [cloudstorage.CloudStorage].
    A request names the bucket, the object and the local directory; its
    modification-time hint is left out, as files carry no times here. *)
Record CloudFileRequest : Type := mkRequest {
  req_bucket : string; req_file : string; req_path : string
}.

Definition cloud_NewCloudFileRequest (bucket file path : string)
  : ST World (result CloudFileRequest) :=
  ok <- attempt NewCloudFileRequest ;;
  if ok then ret (Ok (mkRequest bucket file path))
  else ret (Err (CallError NewCloudFileRequest)).

Definition cloud_UploadFile (file : string) (cfr : CloudFileRequest) : ST World (option error) :=
  ok <- attempt UploadFile ;;
  w <- get ;;
  match files w !! file with
  | Some ct =>
      if ok then modify (set_objects (<[(req_bucket cfr, req_file cfr) := ct]> (objects w))) ;;; ret None
      else ret (Some (CallError UploadFile))
  | None => ret (Some (CallError UploadFile))
  end.

Definition cloud_DownloadFile (file : string) (cfr : CloudFileRequest) : ST World (option error) :=
  ok <- attempt DownloadFile ;;
  w <- get ;;
  match objects w !! (req_bucket cfr, req_file cfr) with
  | Some ct =>
      if ok then modify (set_files (<[file := ct]> (files w))) ;;; ret None
      else ret (Some (CallError DownloadFile))
  | None => ret (Some (CallError DownloadFile))
  end.

Definition cloud_DeleteObject (cfr : CloudFileRequest) : ST World (option error) :=
  ok <- attempt DeleteObject ;;
  w <- get ;;
  match objects w !! (req_bucket cfr, req_file cfr) with
  | Some _ =>
      if ok then modify (set_objects (delete (req_bucket cfr, req_file cfr) (objects w))) ;;; ret None
      else ret (Some (CallError DeleteObject))
  | None => ret (Some (CallError DeleteObject))
  end.

Definition cloud_Close : ST World (option error) :=
  ok <- attempt CloseClient ;;
  if ok then ret None else ret (Some (CallError CloseClient)).

(** *** The store itself

    Modelled from the spec: the TTL Store of section 4.1, which the source
    takes from the package [patrickmn/go-cache] (v2.1.0 in [go.mod]); that
    package is not part of this repository.  Insert-if-absent, lookup with
    expiration, delete, expired sweep, count, enumeration and flush follow
    the contract; the background sweep is the same [cache_DeleteExpired]
    run by a timer and is not scheduled here. *)

Record Cache : Type := mkCache {
  defaultExpiration : Z;
  items : gmap string Item
}.

Definition cache_NoExpiration : Z := -1.
Definition cache_DefaultExpiration : Z := 0.

Definition cache_New (de ci : Z) : Cache :=
  mkCache (if decide (de = 0) then -1 else de) ∅.

(** An item is live at a reading of the clock. *)
Definition live_at (now : Z) (it : Item) : Prop :=
  ¬ (0 < Expiration it ∧ Expiration it < now).

#[global] Instance live_at_dec now it : Decision (live_at now it).
Proof. unfold live_at. apply _. Defined.

Definition Item_Expired (it : Item) : ST World bool :=
  if decide (Expiration it = 0) then ret false
  else t <- time_Now ;; ret (bool_decide (Expiration it < UnixNano t)).

Definition cache_get (k : string) : ST (Cache * World) (option Obj) :=
  c <- gets fst ;;
  match items c !! k with
  | None => ret None
  | Some item =>
      if decide (0 < Expiration item) then
        t <- in_snd time_Now ;;
        if decide (Expiration item < UnixNano t) then ret None
        else ret (Some (Object item))
      else ret (Some (Object item))
  end.

Definition cache_set (k : string) (x : Obj) (d : Z) : ST (Cache * World) unit :=
  c <- gets fst ;;
  let d := if decide (d = cache_DefaultExpiration) then defaultExpiration c else d in
  e <- (if decide (0 < d) then t <- in_snd time_Now ;; ret (UnixNano (t + d)) else ret 0) ;;
  modify (fun cw => (mkCache (defaultExpiration cw.1) (<[k := mkItem x e]> (items cw.1)), cw.2)).

Definition cache_Add (k : string) (x : Obj) (d : Z) : ST (Cache * World) (option error) :=
  found <- cache_get k ;;
  match found with
  | Some _ => ret (Some (ItemExists k))
  | None => cache_set k x d ;;; ret None
  end.

(** The zero [time.Time] is [None]. *)
Definition cache_GetWithExpiration (k : string)
  : ST (Cache * World) (option Obj * option Z * bool) :=
  c <- gets fst ;;
  match items c !! k with
  | None => ret (None, None, false)
  | Some item =>
      if decide (0 < Expiration item) then
        t <- in_snd time_Now ;;
        if decide (Expiration item < UnixNano t) then ret (None, None, false)
        else ret (Some (Object item), Some (Expiration item), true)
      else ret (Some (Object item), None, true)
  end.

Definition cache_Delete (k : string) : ST (Cache * World) unit :=
  modify (fun cw => (mkCache (defaultExpiration cw.1) (delete k (items cw.1)), cw.2)).

Definition cache_DeleteExpired : ST (Cache * World) unit :=
  t <- in_snd time_Now ;;
  modify (fun cw => (mkCache (defaultExpiration cw.1)
                       (filter (fun kv => live_at (UnixNano t) kv.2) (items cw.1)), cw.2)).

Definition cache_Items : ST (Cache * World) (gmap string Item) :=
  t <- in_snd time_Now ;;
  c <- gets fst ;;
  ret (filter (fun kv => live_at (UnixNano t) kv.2) (items c)).

Definition cache_ItemCount : ST (Cache * World) nat :=
  c <- gets fst ;; ret (size (items c)).

Definition cache_Flush : ST (Cache * World) unit :=
  modify (fun cw => (mkCache (defaultExpiration cw.1) ∅, cw.2)).

(** ** The service *)

Inductive AppLogger : Type := Logger.
Inductive CloudStorage : Type := Client.

Record CacheConfig : Type := mkCacheConfig {
  DataDir : string;
  CacheFileName : string;
  MarshalFn : option (Obj -> result Obj);
  DefaultExpiration : Z;
  DefaultCleanupInterval : Z
}.

Record CacheStorageConfig : Type := mkStorageConfig {
  CredsPath : string;
  Bucket : string;
  CloudClient : option CloudStorage
}.

Record cacheService : Type := mkService {
  cfg : CacheConfig;
  loadedAt : Z;
  updatedAt : Z;
  cache : Cache;
  logger : AppLogger;
  StoreConfig : CacheStorageConfig
}.

Definition set_loadedAt (at_ : Z) (c : cacheService) : cacheService :=
  mkService (cfg c) at_ (updatedAt c) (cache c) (logger c) (StoreConfig c).
Definition set_updatedAt (at_ : Z) (c : cacheService) : cacheService :=
  mkService (cfg c) (loadedAt c) at_ (cache c) (logger c) (StoreConfig c).
Definition set_cache (ca : Cache) (c : cacheService) : cacheService :=
  mkService (cfg c) (loadedAt c) (updatedAt c) ca (logger c) (StoreConfig c).
Definition set_StoreConfig (sc : CacheStorageConfig) (c : cacheService) : cacheService :=
  mkService (cfg c) (loadedAt c) (updatedAt c) (cache c) (logger c) sc.

(** A method runs on the receiver and the world. *)
Definition M (A : Type) : Type := ST (cacheService * World) A.

Definition this : M cacheService := gets fst.
Definition io {A} (m : ST World A) : M A := in_snd m.
Definition update (f : cacheService -> cacheService) : M unit :=
  modify (fun cw => (f cw.1, cw.2)).
Definition on_cache {A} (m : ST (Cache * World) A) : M A :=
  fun cw => match m (cache cw.1, cw.2) with
            | Some (a, (ca, w)) => Some (a, (set_cache ca cw.1, w))
            | None => None
            end.

Definition newCacheService (c : CacheConfig) (l : option AppLogger) : result cacheService :=
  match l with
  | Some lg =>
      if decide (DataDir c = "") then Err (NewAppError ERROR_MISSING_REQUIRED)
      else match MarshalFn c with
      | None => Err (NewAppError "missing cache data marshalling function")
      | Some _ =>
          let defaultExp :=
            if decide (DefaultExpiration c <= 0) then DEFAULT_EXPIRATION
            else DefaultExpiration c in
          let cleanupInterval :=
            if decide (DefaultCleanupInterval c <= 0) then DEFAULT_CLEANUP_INTERVAL
            else DefaultCleanupInterval c in
          let c :=
            if decide (CacheFileName c = "")
            then mkCacheConfig (DataDir c) DEFAULT_CACHE_FILE_NAME (MarshalFn c)
                   (DefaultExpiration c) (DefaultCleanupInterval c)
            else c in
          Ok (mkService c 0 0 (cache_New defaultExp cleanupInterval) lg
                (mkStorageConfig "" "" None))
      end
  | None => Err (NewAppError ERROR_MISSING_REQUIRED)
  end.

(** [filepath.Join(c.DataDir, fmt.Sprintf("%s.json", c.CacheFileName))];
    the path is taken as already clean, so that its directory is
    [DataDir] and its base name the file name. *)
Definition filePath (c : cacheService) : string :=
  DataDir (cfg c) +:+ "/" +:+ CacheFileName (cfg c) +:+ ".json".
Definition fileDir (c : cacheService) : string := DataDir (cfg c).
Definition fileBase (c : cacheService) : string := CacheFileName (cfg c) +:+ ".json".

(** [Set] (a reserved word here) *)
Definition Set_ (key : string) (value : Obj) (d : Z) : M (option error) :=
  err <- on_cache (cache_Add key value d) ;;
  match err with
  | Some e => ret (Some (WrapError e ERROR_SET_CACHE))
  | None =>
      t <- io time_Now ;;
      update (set_updatedAt (Unix t)) ;;;
      ret None
  end.

Definition Get (key : string) : M (option Obj * option Z) :=
  r <- on_cache (cache_GetWithExpiration key) ;;
  let '(val, exp, ok) := r in
  if negb ok then ret (None, exp) else ret (val, exp).

(** The in-memory state has been marked since the last load. *)
Definition dirty (c : cacheService) : Prop := loadedAt c < updatedAt c.

#[global] Instance dirty_dec c : Decision (dirty c).
Proof. unfold dirty. apply _. Defined.

Definition Updated : M bool :=
  c <- this ;;
  ret (bool_decide (dirty c)).

Definition setLoadedAt (at_ : Z) : M unit :=
  update (set_loadedAt at_) ;;;
  update (set_updatedAt at_).

Definition delete_ (key : string) : M unit :=
  on_cache (cache_Delete key) ;;;
  t <- io time_Now ;;
  update (set_updatedAt (Unix t)).

Definition deleteExpired : M unit := on_cache cache_DeleteExpired.

Definition itemCount : M nat := on_cache cache_ItemCount.

Definition items_ : M (gmap string Item) := on_cache cache_Items.

Definition Delete (key : string) : M unit := delete_ key.
Definition DeleteExpired : M unit := deleteExpired.
Definition Items : M (gmap string Item) := items_.
Definition ItemCount : M nat := itemCount.

Definition deleteCloudCache : M (option error) :=
  c <- this ;;
  match CloudClient (StoreConfig c) with
  | None => ret (Some (NewAppError "missing cloud storage client"))
  | Some _ =>
      let cacheFile := filePath c in
      err <- io (os_Stat cacheFile) ;;
      match err with
      | Some e => ret (Some (WrapError e ("error accessing file " +:+ cacheFile)))
      | None =>
          cfr <- io (cloud_NewCloudFileRequest (Bucket (StoreConfig c)) (fileBase c) (fileDir c)) ;;
          match cfr with
          | Err e => ret (Some e)
          | Ok cfr => io (cloud_DeleteObject cfr)
          end
      end
  end.

(** The errors [deleteCloudCache] can return. *)
Inductive remote_delete_error (c : cacheService) : error -> Prop :=
| rde_client : remote_delete_error c (NewAppError "missing cloud storage client")
| rde_stat e : remote_delete_error c (WrapError e ("error accessing file " +:+ filePath c))
| rde_request : remote_delete_error c (CallError NewCloudFileRequest)
| rde_delete : remote_delete_error c (CallError DeleteObject).

Definition uploadCloudCache : M (option error) :=
  c <- this ;;
  match CloudClient (StoreConfig c) with
  | None => ret (Some (NewAppError "missing cloud storage client"))
  | Some _ =>
      let cacheFile := filePath c in
      err <- io (os_Stat cacheFile) ;;
      match err with
      | Some e => ret (Some (WrapError e ("error accessing file " +:+ cacheFile)))
      | None =>
          err <- io (os_Open cacheFile) ;;
          match err with
          | Some e => ret (Some (WrapError e ("error opening file " +:+ cacheFile)))
          | None =>
              cfr <- io (cloud_NewCloudFileRequest (Bucket (StoreConfig c)) (fileBase c) (fileDir c)) ;;
              match cfr with
              | Err e => ret (Some e)
              | Ok cfr => io (cloud_UploadFile cacheFile cfr)
              end
          end
      end
  end.

Definition downloadCloudCache : M (option error) :=
  c <- this ;;
  match CloudClient (StoreConfig c) with
  | None => ret (Some (NewAppError "missing cloud storage client"))
  | Some _ =>
      let cacheFile := filePath c in
      err <- io (os_Stat cacheFile) ;;
      err <- match err with
             | Some _ => io (os_MkdirAll (fileDir c))
             | None => ret None
             end ;;
      match err with
      | Some e => ret (Some (WrapError e "error creating file directory"))
      | None =>
          err <- io (os_Create cacheFile) ;;
          match err with
          | Some e => ret (Some (WrapError e ("error creating file " +:+ cacheFile)))
          | None =>
              cfr <- io (cloud_NewCloudFileRequest (Bucket (StoreConfig c)) (fileBase c) (fileDir c)) ;;
              match cfr with
              | Err e => ret (Some e)
              | Ok cfr => io (cloud_DownloadFile cacheFile cfr)
              end
          end
      end
  end.

Definition saveFile : M (option error) :=
  c <- this ;;
  let filePath := filePath c in
  err <- io (os_Stat (fileDir c)) ;;
  err <- match err with
         | Some e => if IsNotExist e then io (os_MkdirAll (fileDir c)) else ret (Some e)
         | None => ret None
         end ;;
  match err with
  | Some e => ret (Some (WrapError e ERROR_CREATING_CACHE_DIR))
  | None =>
      err <- io (os_Create filePath) ;;
      match err with
      | Some e => ret (Some (WrapError e ERROR_GETTING_CACHE_FILE))
      | None =>
          items <- on_cache cache_Items ;;
          err <- io (json_Encode filePath items) ;;
          match err with
          | Some e => ret (Some (WrapError e ERROR_SAVING_CACHE_FILE))
          | None => ret None
          end
      end
  end.

(** One turn of the loop of [load]. *)
Definition load_entry (k : string) (v : Item) : M unit :=
  expired <- io (Item_Expired v) ;;
  if negb expired then
    c <- this ;;
    match MarshalFn (cfg c) with
    | None => panic
    | Some fn =>
        match fn (Object v) with
        | Err _ => ret tt
        | Ok obj => Set_ k obj (5 * Hour) ;;; ret tt
        end
    end
  else ret tt.

Fixpoint for_range (l : list (string * Item)) (body : string -> Item -> M unit) : M unit :=
  match l with
  | [] => ret tt
  | (k, v) :: l => body k v ;;; for_range l body
  end.

(** [load]; the reader is the open file, named by its path.  Go ranges
    over a map in an order of its choosing: here the order of
    [map_to_list]. *)
Definition load (r : string) : M (option error) :=
  dec <- io (json_Decode r) ;;
  match dec with
  | Ok items => for_range (map_to_list items) load_entry
  | Err _ => ret tt
  end ;;;
  t <- io time_Now ;;
  setLoadedAt (Unix t) ;;;
  ret (match dec with Ok _ => None | Err e => Some e end).

Definition loadFile : M (option error) :=
  c <- this ;;
  let filePath := filePath c in
  err <- io (os_Stat filePath) ;;
  err <- match err with
         | Some e =>
             match CloudClient (StoreConfig c) with
             | Some _ =>
                 err <- downloadCloudCache ;;
                 match err with
                 | Some e => ret (Some (WrapError e "error getting cache file from storage"))
                 | None => ret None
                 end
             | None => ret (Some (WrapError e "error no cache file"))
             end
         | None => ret None
         end ;;
  match err with
  | Some e => ret (Some e)
  | None =>
      err <- io (os_Open filePath) ;;
      match err with
      | Some e => ret (Some (WrapError e ERROR_OPENING_CACHE_FILE))
      | None =>
          err <- load filePath ;;
          match err with
          | Some e => ret (Some (WrapError e ERROR_LOADING_CACHE_FILE))
          | None => ret None
          end
      end
  end.

(** The save and upload steps that [clear] takes on a dirty instance. *)
Definition save_and_upload : M (option error) :=
  c <- this ;;
  err <- saveFile ;;
  match err with
  | Some e => ret (Some e)
  | None =>
      match CloudClient (StoreConfig c) with
      | Some _ => uploadCloudCache
      | None => ret None
      end
  end.

Definition clear : M (option error) :=
  c <- this ;;
  updated <- Updated ;;
  err <- (if updated then save_and_upload else ret None) ;;
  match err with
  | Some e => ret (Some e)
  | None =>
      on_cache cache_Flush ;;;
      match CloudClient (StoreConfig c) with
      | Some _ => io cloud_Close
      | None => ret None
      end
  end.

Definition Clear : M (option error) := clear.

Definition ClearFile : M (option error) :=
  c <- this ;;
  let filePath := filePath c in
  err <- io (os_Stat filePath) ;;
  match err with
  | Some e => ret (Some (WrapError e ("error accessing file " +:+ filePath)))
  | None =>
      cloudErr <- match CloudClient (StoreConfig c) with
                  | Some _ => deleteCloudCache
                  | None => ret None
                  end ;;
      err <- io (os_Remove filePath) ;;
      match err with
      | Some e => ret (Some (WrapError e ("error removing file " +:+ filePath)))
      | None => ret cloudErr
      end
  end.

(** What [load] leaves for an entry [v] of the decoded snapshot, [r] being
    what the store holds under its key afterwards and [lo], [hi] bounding
    the clock readings taken: either the converted object with an
    expiration five hours after a reading, the entry having been found
    unexpired; or nothing, the entry having been found expired or its
    conversion having failed. *)
Definition loaded_as (fn : Obj -> result Obj) (w : World) (lo hi : nat)
    (v : Item) (r : option Item) : Prop :=
  match r with
  | Some it =>
      exists obj i,
        fn (Object v) = Ok obj
        /\ (lo <= i < hi)%nat
        /\ it = mkItem obj (UnixNano (clock w i + 5 * Hour))
        /\ (Expiration v = 0
            \/ exists j, (lo <= j < hi)%nat /\ ~ Expiration v < UnixNano (clock w j))
  | None =>
      (Expiration v <> 0
       /\ exists j, (lo <= j < hi)%nat /\ Expiration v < UnixNano (clock w j))
      \/ (exists e, fn (Object v) = Err e)
  end.

(** The service but for its entries and [updatedAt]. *)
Definition same_but_entries (c c' : cacheService) : Prop :=
  cfg c' = cfg c /\ loadedAt c' = loadedAt c /\ logger c' = logger c
  /\ StoreConfig c' = StoreConfig c
  /\ defaultExpiration (cache c') = defaultExpiration (cache c).

(** The readings of the clock, as [UnixNano] gives them, do not go back. *)
Definition monotone_clock (w : World) : Prop :=
  forall i j, (i <= j)%nat -> UnixNano (clock w i) <= UnixNano (clock w j).

(** A clock that does not go back and reads between one second after
    the epoch and five hours before the end of the int64 nanoseconds. *)
Definition steady_clock (w : World) : Prop :=
  (forall i j, (i <= j)%nat -> clock w i <= clock w j)
  /\ (forall i, Second <= clock w i /\ clock w i + 5 * Hour < 2 ^ 63).

(** The service with its store flushed. *)
Definition flushed (c : cacheService) : cacheService :=
  set_cache (mkCache (defaultExpiration (cache c)) ∅) c.

(** Nothing stands in the way of [saveFile]. *)
Definition save_permitted (c : cacheService) (w : World) : Prop :=
  denied w (OsStat (fileDir c)) = false
  /\ denied w (OsMkdirAll (fileDir c)) = false
  /\ denied w (OsCreate (filePath c)) = false
  /\ denied w JsonEncode = false.

(** A constructor runs on the world alone and hands out the service. *)
Definition construct (c : cacheService) (m : M (option error)) : ST World (result cacheService) :=
  fun w => match m (c, w) with
           | Some (_, (c', w')) => Some (Ok c', w')
           | None => None
           end.

Definition NewCacheService (c : CacheConfig) (l : option AppLogger)
  : ST World (result cacheService) :=
  match newCacheService c l with
  | Err e => ret (Err e)
  | Ok cacheService => construct cacheService loadFile
  end.

Definition cloud_NewCloudStorageClient (credsPath : string) : ST World (result CloudStorage) :=
  ok <- attempt NewCloudStorageClient ;;
  if ok then ret (Ok Client) else ret (Err (CallError NewCloudStorageClient)).

Definition NewWithCloudBackup (cacheCfg : CacheConfig) (cloudCfg : CacheStorageConfig)
    (l : option AppLogger) : ST World (result cacheService) :=
  if decide (DataDir cacheCfg = "" ∨ l = None) then ret (Err (NewAppError ERROR_MISSING_REQUIRED))
  else match MarshalFn cacheCfg with
  | None => ret (Err (NewAppError "missing cache data marshalling function"))
  | Some _ =>
      cloudCfg <- match CloudClient cloudCfg with
                  | Some _ => ret (Ok cloudCfg)
                  | None =>
                      if decide (Bucket cloudCfg = "" ∨ CredsPath cloudCfg = "")
                      then ret (Err (NewAppError "missing bucket and cloud credentials"))
                      else
                        csc <- cloud_NewCloudStorageClient (CredsPath cloudCfg) ;;
                        match csc with
                        | Err _ => ret (Err (NewAppError "error creating cloud storage client"))
                        | Ok csc => ret (Ok (mkStorageConfig (CredsPath cloudCfg) (Bucket cloudCfg) (Some csc)))
                        end
                  end ;;
      match cloudCfg with
      | Err e => ret (Err e)
      | Ok cloudCfg =>
          if decide (Bucket cloudCfg = "") then ret (Err (NewAppError "missing bucket information"))
          else match newCacheService cacheCfg l with
          | Err e => ret (Err e)
          | Ok ca => construct (set_StoreConfig cloudCfg ca) loadFile
          end
      end
  end.

End Cache.

(** * Sample instances

    A configuration over the directory [data] and the file name
    [delivery], string values, and a clock that starts in 2023 and
    advances a millisecond per reading for a hundred readings. *)

Module Sample.

Definition clock (n : nat) : Z :=
  Z.of_nat (Nat.min n 100) * 1000000 + 1700000000 * Second.

Definition accept (o : string) : result string := Ok o.
Definition refuse (o : string) : result string := Err (NewAppError "not a cache value").

Definition path : string := "data/delivery.json".

Definition config (fn : string -> result string) : @CacheConfig string :=
  mkCacheConfig "data" "delivery" (Some fn) 0 0.

Definition no_backend : CacheStorageConfig := mkStorageConfig "" "" None.
Definition backend : CacheStorageConfig := mkStorageConfig "" "bucket" (Some Client).

(** A service holding [entries], loaded at second [l] and updated at [u]. *)
Definition service (fn : string -> result string) (entries : gmap string (@Item string))
    (l u : Z) (sc : CacheStorageConfig) : @cacheService string :=
  mkService (config fn) l u (mkCache DEFAULT_EXPIRATION entries) Logger sc.

(** Which calls fail: none, every [os.Create], every [os.Remove]. *)
Definition all_well (c : call) : bool := false.
Definition no_create (c : call) : bool :=
  match c with OsCreate _ => true | _ => false end.
Definition no_remove (c : call) : bool :=
  match c with OsRemove _ => true | _ => false end.

(** A world with the given files, where the calls of [deny] fail. *)
Definition world (fs : gmap string (@content string)) (deny : call -> bool) : @World string :=
  mkWorld clock 0 fs {["data"]} ∅ deny [].

(** Refuses ["John"], accepts the rest. *)
Definition picky (o : string) : result string :=
  if String.eqb o "John" then Err (NewAppError "not a cache value") else Ok o.

Definition john : @Item string := mkItem "John" 0.
Definition jane : @Item string := mkItem "Jane" 0.

(** A dirty service with one entry, and the same with a remote backend. *)
Definition dirty_service : @cacheService string :=
  service accept {["test" := john]} 0 1700000000 no_backend.
Definition dirty_backed_service : @cacheService string :=
  service accept {["test" := john]} 0 1700000000 backend.

(** The service as [newCacheService] makes it. *)
Definition fresh (fn : string -> result string) : @cacheService string :=
  mkService (config fn) 0 0 (cache_New DEFAULT_EXPIRATION DEFAULT_CLEANUP_INTERVAL)
    Logger no_backend.

(** More ways for calls to fail. *)
Definition no_stat (c : call) : bool :=
  match c with OsStat _ => true | _ => false end.
Definition no_mkdir (c : call) : bool :=
  match c with OsMkdirAll _ => true | _ => false end.
Definition no_encode (c : call) : bool :=
  match c with JsonEncode => true | _ => false end.
Definition no_download (c : call) : bool :=
  match c with DownloadFile => true | _ => false end.
Definition no_upload (c : call) : bool :=
  match c with UploadFile => true | _ => false end.
Definition no_new_client (c : call) : bool :=
  match c with NewCloudStorageClient => true | _ => false end.

(** A world without the data directory, and one with remote objects. *)
Definition bare_world (deny : call -> bool) : @World string :=
  mkWorld clock 0 ∅ ∅ ∅ deny [].
Definition remote_world (fs : gmap string (@content string))
    (objs : gmap (string * string) (@content string)) (deny : call -> bool)
  : @World string :=
  mkWorld clock 0 fs {["data"]} objs deny [].

(** The fresh service with the remote backend. *)
Definition fresh_backed (fn : string -> result string) : @cacheService string :=
  set_StoreConfig backend (fresh fn).

(** An entry that expired in 1970, and a service holding it. *)
Definition old : @Item string := mkItem "Old" 1.
Definition stale_service : @cacheService string :=
  service accept {["test" := old]} 0 0 no_backend.

(** A service loaded in the second of the sample clock. *)
Definition loaded_service : @cacheService string :=
  service accept ∅ 1700000000 1700000000 no_backend.


(** A key that is not UTF-8, the Latin-1 bytes of the word café, the key
    JSON makes of it, and a dirty service holding it beside [test]. *)
Definition latin1_key : string := "caf" +:+ String (Ascii.ascii_of_N 0xE9) "".
Definition replaced_key : string := "caf" +:+ replacement_rune.
Definition latin1_service : @cacheService string :=
  service accept (<["test" := john]> {[latin1_key := jane]}) 0 1700000000 no_backend.

End Sample.

(** * Properties *)

Section Properties.

Context {Obj : Type}.
Variable json_reparse : Obj -> Obj.
Variable ERROR_MISSING_REQUIRED : string.

Implicit Types (c : @cacheService Obj) (w : @World Obj) (it : @Item Obj).

Ltac monad :=
  unfold bind, ret, gets, get, modify, panic, in_snd, io, update, on_cache, this in *.

(** *** Rules for [wp] *)

Lemma wp_ret {S A} (a : A) (s : S) P : P a s -> wp (ret a) s P.
Proof. intros. by exists a, s. Qed.

Lemma wp_bind {S A B} (m : ST S A) (k : A -> ST S B) s P :
  wp m s (fun a s' => wp (k a) s' P) -> wp (bind m k) s P.
Proof.
  intros (a & s' & Hm & b & s'' & Hk & HP). exists b, s''.
  unfold bind. by rewrite Hm.
Qed.

Lemma wp_mono {S A} (m : ST S A) s (P Q : A -> S -> Prop) :
  wp m s P -> (forall a s', P a s' -> Q a s') -> wp m s Q.
Proof. intros (a & s' & Hm & HP) HPQ. exists a, s'. auto. Qed.

Lemma wp_run {S A} (m : ST S A) s a s' (P : A -> S -> Prop) :
  m s = Some (a, s') -> P a s' -> wp m s P.
Proof. intros. by exists a, s'. Qed.

Lemma wp_inv {S A} (m : ST S A) s a s' (P : A -> S -> Prop) :
  wp m s P -> m s = Some (a, s') -> P a s'.
Proof. intros (a0 & s0 & Hm & HP) Heq. congruence. Qed.

Lemma wp_gets {S A} (f : S -> A) s P : P (f s) s -> wp (gets f) s P.
Proof. intros. by exists (f s), s. Qed.

Lemma wp_get {S} (s : S) P : P s s -> wp get s P.
Proof. intros. by exists s, s. Qed.

Lemma wp_modify {S} (f : S -> S) s P : P tt (f s) -> wp (modify f) s P.
Proof. intros. by exists tt, (f s). Qed.

Lemma wp_in_snd {X S A} (m : ST S A) (xs : X * S) P :
  wp m xs.2 (fun a s' => P a (xs.1, s')) -> wp (in_snd m) xs P.
Proof.
  intros (a & s' & Hm & HP). exists a, (xs.1, s'). unfold in_snd. by rewrite Hm.
Qed.

Lemma wp_on_cache {A} (m : ST (@Cache Obj * World) A) (cw : cacheService * World) P :
  wp m (cache cw.1, cw.2) (fun a s' => P a (set_cache s'.1 cw.1, s'.2)) ->
  wp (on_cache m) cw P.
Proof.
  intros (a & [ca w'] & Hm & HP). exists a, (set_cache ca cw.1, w').
  unfold on_cache. by rewrite Hm.
Qed.

Lemma wp_time_Now w P :
  P (clock w (ticks w)) (set_ticks (S (ticks w)) w) -> wp time_Now w P.
Proof. intros. by eexists _, _. Qed.

Lemma wp_attempt (c : call) w P :
  P (negb (denied w c)) (set_trace (c :: trace w) w) -> wp (attempt c) w P.
Proof. intros. by eexists _, _. Qed.

(** The external calls, each with the cases of its answer. *)
Lemma wp_os_Stat p w P :
  (let w' := set_trace (OsStat p :: trace w) w in
   if denied w (OsStat p) then P (Some (CallError (OsStat p))) w'
   else if exists_path p w then P None w'
   else P (Some (ErrNotExist p)) w') ->
  wp (os_Stat p) w P.
Proof.
  unfold os_Stat, attempt, exists_path. cbn. intros H. unfold wp. monad. cbn.
  destruct (denied w (OsStat p)); cbn; [eauto|].
  destruct (_ || _); cbn; eauto.
Qed.

Lemma wp_os_MkdirAll p w P :
  (let w' := set_trace (OsMkdirAll p :: trace w) w in
   if denied w (OsMkdirAll p) then P (Some (CallError (OsMkdirAll p))) w'
   else P None (set_dirs ({[p]} ∪ dirs w) w')) ->
  wp (os_MkdirAll p) w P.
Proof.
  unfold os_MkdirAll, attempt. cbn. intros H. unfold wp. monad. cbn.
  destruct (denied w (OsMkdirAll p)); cbn; eauto.
Qed.

Lemma wp_os_Create p w P :
  (let w' := set_trace (OsCreate p :: trace w) w in
   if denied w (OsCreate p) then P (Some (CallError (OsCreate p))) w'
   else P None (set_files (<[p := Unparsable]> (files w)) w')) ->
  wp (os_Create p) w P.
Proof.
  unfold os_Create, attempt. cbn. intros H. unfold wp. monad. cbn.
  destruct (denied w (OsCreate p)); cbn; eauto.
Qed.

Lemma wp_os_Open p w P :
  (let w' := set_trace (OsOpen p :: trace w) w in
   if denied w (OsOpen p) then P (Some (CallError (OsOpen p))) w'
   else if exists_path p w then P None w'
   else P (Some (ErrNotExist p)) w') ->
  wp (os_Open p) w P.
Proof.
  unfold os_Open, attempt, exists_path. cbn. intros H. unfold wp. monad. cbn.
  destruct (denied w (OsOpen p)); cbn; [eauto|].
  destruct (_ || _); cbn; eauto.
Qed.

Lemma wp_os_Remove p w P :
  (let w' := set_trace (OsRemove p :: trace w) w in
   if denied w (OsRemove p) then P (Some (CallError (OsRemove p))) w'
   else if bool_decide (is_Some (files w !! p))
        then P None (set_files (base.delete p (files w)) w')
   else if bool_decide (p ∈ dirs w) then P (Some (CallError (OsRemove p))) w'
   else P (Some (ErrNotExist p)) w') ->
  wp (os_Remove p) w P.
Proof.
  unfold os_Remove, attempt. cbn. intros H. unfold wp. monad. cbn.
  destruct (denied w (OsRemove p)); cbn; [eauto|].
  destruct (bool_decide (is_Some _)); cbn; [eauto|].
  destruct (bool_decide (_ ∈ _)); cbn; eauto.
Qed.

Lemma wp_json_Encode p m w P :
  (let w' := set_trace (JsonEncode :: trace w) w in
   if denied w JsonEncode then P (Some (CallError JsonEncode)) w'
   else P None (set_files (<[p := Snapshot (json_members m)]> (files w)) w')) ->
  wp (json_Encode p m) w P.
Proof.
  unfold json_Encode, attempt. cbn. intros H. unfold wp. monad. cbn.
  destruct (denied w JsonEncode); cbn; eauto.
Qed.

Lemma wp_json_Decode p w P :
  (let w' := set_trace (JsonDecode :: trace w) w in
   match files w !! p with
   | Some (Snapshot m) =>
       if denied w JsonDecode then P (Err (CallError JsonDecode)) w'
       else P (Ok (reparsed json_reparse m)) w'
   | _ => P (Err (CallError JsonDecode)) w'
   end) ->
  wp (json_Decode json_reparse p) w P.
Proof.
  unfold json_Decode, attempt. cbn. intros H. unfold wp. monad. cbn.
  destruct (files w !! p) as [[m|]|]; cbn; eauto.
  destruct (denied w JsonDecode); cbn; eauto.
Qed.

Lemma wp_cloud_NewCloudFileRequest b f d w P :
  (let w' := set_trace (NewCloudFileRequest :: trace w) w in
   if denied w NewCloudFileRequest then P (Err (CallError NewCloudFileRequest)) w'
   else P (Ok (mkRequest b f d)) w') ->
  wp (cloud_NewCloudFileRequest b f d) w P.
Proof.
  unfold cloud_NewCloudFileRequest, attempt. cbn. intros H. unfold wp. monad. cbn.
  destruct (denied w NewCloudFileRequest); cbn; eauto.
Qed.

Lemma wp_cloud_UploadFile f cfr w P :
  (let w' := set_trace (UploadFile :: trace w) w in
   match files w !! f with
   | Some ct =>
       if denied w UploadFile then P (Some (CallError UploadFile)) w'
       else P None (set_objects (<[(req_bucket cfr, req_file cfr) := ct]> (objects w)) w')
   | None => P (Some (CallError UploadFile)) w'
   end) ->
  wp (cloud_UploadFile f cfr) w P.
Proof.
  unfold cloud_UploadFile, attempt. cbn. intros H. unfold wp. monad. cbn.
  destruct (files w !! f); cbn; eauto.
  destruct (denied w UploadFile); cbn; eauto.
Qed.

Lemma wp_cloud_DownloadFile f cfr w P :
  (let w' := set_trace (DownloadFile :: trace w) w in
   match objects w !! (req_bucket cfr, req_file cfr) with
   | Some ct =>
       if denied w DownloadFile then P (Some (CallError DownloadFile)) w'
       else P None (set_files (<[f := ct]> (files w)) w')
   | None => P (Some (CallError DownloadFile)) w'
   end) ->
  wp (cloud_DownloadFile f cfr) w P.
Proof.
  unfold cloud_DownloadFile, attempt. cbn. intros H. unfold wp. monad. cbn.
  destruct (objects w !! _); cbn; eauto.
  destruct (denied w DownloadFile); cbn; eauto.
Qed.

Lemma wp_cloud_DeleteObject cfr w P :
  (let w' := set_trace (DeleteObject :: trace w) w in
   match objects w !! (req_bucket cfr, req_file cfr) with
   | Some _ =>
       if denied w DeleteObject then P (Some (CallError DeleteObject)) w'
       else P None (set_objects (base.delete (req_bucket cfr, req_file cfr) (objects w)) w')
   | None => P (Some (CallError DeleteObject)) w'
   end) ->
  wp (cloud_DeleteObject cfr) w P.
Proof.
  unfold cloud_DeleteObject, attempt. cbn. intros H. unfold wp. monad. cbn.
  destruct (objects w !! _); cbn; eauto.
  destruct (denied w DeleteObject); cbn; eauto.
Qed.

Lemma wp_cloud_Close w P :
  (let w' := set_trace (CloseClient :: trace w) w in
   if denied w CloseClient then P (Some (CallError CloseClient)) w' else P None w') ->
  wp cloud_Close w P.
Proof.
  unfold cloud_Close, attempt. cbn. intros H. unfold wp. monad. cbn.
  destruct (denied w CloseClient); cbn; eauto.
Qed.

Ltac wp_seq :=
  lazymatch goal with
  | |- wp (bind _ _) _ _ => apply wp_bind
  | |- wp (ret _) _ _ => apply wp_ret
  | |- wp get _ _ => apply wp_get
  | |- wp (gets _) _ _ => apply wp_gets
  | |- wp this _ _ => apply wp_gets
  | |- wp (modify _) _ _ => apply wp_modify
  | |- wp (update _) _ _ => apply wp_modify
  | |- wp (in_snd _) _ _ => apply wp_in_snd
  | |- wp (io _) _ _ => apply wp_in_snd
  | |- wp (on_cache _) _ _ => apply wp_on_cache
  | |- wp time_Now _ _ => apply wp_time_Now
  | |- wp (attempt _) _ _ => apply wp_attempt
  | |- wp (os_Stat _) _ _ => apply wp_os_Stat
  | |- wp (os_MkdirAll _) _ _ => apply wp_os_MkdirAll
  | |- wp (os_Create _) _ _ => apply wp_os_Create
  | |- wp (os_Open _) _ _ => apply wp_os_Open
  | |- wp (os_Remove _) _ _ => apply wp_os_Remove
  | |- wp (json_Encode _ _) _ _ => apply wp_json_Encode
  | |- wp (json_Decode _ _) _ _ => apply wp_json_Decode
  | |- wp (cloud_NewCloudFileRequest _ _ _) _ _ => apply wp_cloud_NewCloudFileRequest
  | |- wp (cloud_UploadFile _ _) _ _ => apply wp_cloud_UploadFile
  | |- wp (cloud_DownloadFile _ _) _ _ => apply wp_cloud_DownloadFile
  | |- wp (cloud_DeleteObject _) _ _ => apply wp_cloud_DeleteObject
  | |- wp cloud_Close _ _ => apply wp_cloud_Close
  end;
  cbn [fst snd clock ticks files dirs objects denied trace
       set_ticks set_files set_dirs set_objects set_trace].

Ltac wp_run := repeat (wp_seq; cbn beta iota zeta).

(** Follow every branch. *)
Ltac wp_cases :=
  repeat first
    [ wp_seq; cbn beta iota zeta
    | lazymatch goal with
      | |- if ?b then _ else _ => destruct b eqn:?
      | |- match ?x with _ => _ end => destruct x eqn:?
      | |- wp (if ?b then _ else _) _ _ => destruct b eqn:?
      | |- wp (match ?x with _ => _ end) _ _ => destruct x eqn:?
      end ].

Ltac wp_step :=
  first
    [ wp_seq
    | lazymatch goal with
      | |- wp (if ?b then _ else _) _ _ => destruct b eqn:?
      | |- wp (match ?x with _ => _ end) _ _ => destruct x eqn:?
      end; cbn [fst snd] ].

Ltac files_ops :=
  unfold os_Stat, os_MkdirAll, os_Create, os_Open, os_Remove, json_Encode, json_Decode,
    cloud_NewCloudFileRequest, cloud_UploadFile, cloud_DownloadFile, cloud_DeleteObject,
    cloud_Close in *.

Lemma Updated_run c w :
  Updated (c, w) = Some (bool_decide (dirty c), (c, w)).
Proof. reflexivity. Qed.

Lemma set_cache_id c : set_cache (cache c) c = c.
Proof. by destruct c. Qed.

Lemma mkCache_id (ca : @Cache Obj) : mkCache (defaultExpiration ca) (items ca) = ca.
Proof. by destruct ca. Qed.

(** [cache.Add] on a key that holds a live item: rejected, nothing
    changes but the count of clock readings. *)
Lemma cache_Add_live k x d (ca : @Cache Obj) w it :
  items ca !! k = Some it ->
  live_at (UnixNano (clock w (ticks w))) it ->
  exists w', cache_Add k x d (ca, w) = Some (Some (ItemExists k), (ca, w'))
    /\ files w' = files w /\ dirs w' = dirs w /\ objects w' = objects w
    /\ trace w' = trace w.
Proof.
  intros Hk Hlive. unfold cache_Add, cache_get. monad. cbn. rewrite Hk.
  destruct (decide (0 < Expiration it)) as [Hpos|Hpos]; cbn.
  - destruct (decide (Expiration it < UnixNano (clock w (ticks w)))) as [Hexp|Hexp].
    + exfalso. apply Hlive. done.
    + eexists. split; [reflexivity|]. done.
  - eexists. split; [reflexivity|]. done.
Qed.

(** C4: a [Set] on a key that holds a live entry returns an error and
    changes nothing: the service is the one it was, so the stored value,
    [updatedAt], [loadedAt] and the answer of [Updated] are those from
    before the call. *)
Theorem Set_on_live_key_is_rejected k (v1 v2 : Obj) d c w it :
  items (cache c) !! k = Some it ->
  Object it = v1 ->
  live_at (UnixNano (clock w (ticks w))) it ->
  exists w',
    Set_ k v2 d (c, w) = Some (Some (WrapError (ItemExists k) ERROR_SET_CACHE), (c, w'))
    /\ (Object <$> items (cache c) !! k) = Some v1
    /\ files w' = files w /\ objects w' = objects w
    /\ Updated (c, w') = Some (bool_decide (dirty c), (c, w')).
Proof.
  intros Hk Hv Hlive.
  destruct (cache_Add_live k v2 d (cache c) w it Hk Hlive) as (w' & Hadd & Hf & _ & Ho & _).
  exists w'. unfold Set_. monad. cbn. rewrite Hadd. cbn.
  rewrite set_cache_id. rewrite Hk. cbn. by rewrite Hv.
Qed.

Ltac methods :=
  unfold Set_, Get, Delete, delete_, DeleteExpired, deleteExpired, ItemCount, itemCount,
    Items, items_, Updated, cache_Add, cache_get, cache_set, cache_GetWithExpiration,
    cache_Delete, cache_DeleteExpired, cache_Items, cache_ItemCount, cache_Flush,
    time_Now in *.

(** C6: a successful [Set] and every [Delete] set [updatedAt] to the
    reading of the clock they take; a rejected [Set], [DeleteExpired],
    [Get], [ItemCount], [Items] and [Updated] leave [loadedAt] and
    [updatedAt] as they were.  No operation of these touches [loadedAt]. *)
Theorem only_Set_and_Delete_mark_updated k (v : Obj) d c w :
  (exists r c' w', Set_ k v d (c, w) = Some (r, (c', w'))
     /\ loadedAt c' = loadedAt c
     /\ match r with
        | None => (ticks w < ticks w')%nat
                  /\ updatedAt c' = Unix (clock w (pred (ticks w')))
        | Some _ => updatedAt c' = updatedAt c
        end)
  /\ (exists c' w', Delete k (c, w) = Some (tt, (c', w'))
       /\ loadedAt c' = loadedAt c
       /\ ticks w' = S (ticks w)
       /\ updatedAt c' = Unix (clock w (ticks w)))
  /\ (exists c' w', DeleteExpired (c, w) = Some (tt, (c', w'))
       /\ loadedAt c' = loadedAt c /\ updatedAt c' = updatedAt c)
  /\ (exists r c' w', Get k (c, w) = Some (r, (c', w'))
       /\ loadedAt c' = loadedAt c /\ updatedAt c' = updatedAt c)
  /\ (exists n c' w', ItemCount (c, w) = Some (n, (c', w'))
       /\ loadedAt c' = loadedAt c /\ updatedAt c' = updatedAt c)
  /\ (exists m c' w', Items (c, w) = Some (m, (c', w'))
       /\ loadedAt c' = loadedAt c /\ updatedAt c' = updatedAt c)
  /\ (exists b c' w', Updated (c, w) = Some (b, (c', w'))
       /\ loadedAt c' = loadedAt c /\ updatedAt c' = updatedAt c).
Proof.
  repeat split.
  - methods. monad. cbn.
    destruct (items (cache c) !! k) as [it|]; cbn.
    + destruct (decide (0 < Expiration it)); cbn.
      * destruct (decide (Expiration it < UnixNano (clock w (ticks w)))); cbn.
        -- destruct (decide (0 < (if decide (d = cache_DefaultExpiration)
                                   then defaultExpiration (cache c) else d))); cbn;
             do 3 eexists; (split; [reflexivity|]); cbn; split; try done; split; try done; lia.
        -- do 3 eexists. split; [reflexivity|]. done.
      * do 3 eexists. split; [reflexivity|]. done.
    + destruct (decide (0 < (if decide (d = cache_DefaultExpiration)
                              then defaultExpiration (cache c) else d))); cbn;
        do 3 eexists; (split; [reflexivity|]); cbn; split; try done; split; try done; lia.
  - methods. monad. cbn. do 2 eexists. split; [reflexivity|]. done.
  - methods. monad. cbn. do 2 eexists. split; [reflexivity|]. done.
  - methods. monad. cbn.
    destruct (items (cache c) !! k) as [it|]; cbn.
    + destruct (decide (0 < Expiration it)); cbn.
      * destruct (decide (Expiration it < UnixNano (clock w (ticks w)))); cbn;
          do 3 eexists; (split; [reflexivity|]); done.
      * do 3 eexists. split; [reflexivity|]. done.
    + do 3 eexists. split; [reflexivity|]. done.
  - methods. monad. cbn. do 3 eexists. split; [reflexivity|]. done.
  - methods. monad. cbn. do 3 eexists. split; [reflexivity|]. done.
  - methods. monad. cbn. do 3 eexists. split; [reflexivity|]. done.
Qed.

(** *** The members of a written snapshot *)

Lemma members_foldl_Some (l : list (string * @Item Obj)) : forall acc k' it,
  foldl json_member acc l !! k' = Some it ->
  (exists k, json_key k = k' /\ (k, it) ∈ l) \/ acc !! k' = Some it.
Proof.
  induction l as [|[k0 it0] l IH]; intros acc k' it; cbn [foldl]; [by right|].
  intros H. apply IH in H as [(k & Hk & Hin)|H].
  - left. exists k. split; [done|]. by right.
  - unfold json_member in H. cbn in H. destruct (decide (json_key k0 = k')) as [<-|Hne].
    + rewrite lookup_insert_eq in H. injection H as ->. left. exists k0. split; [done|]. left.
    + rewrite lookup_insert_ne in H by done. by right.
Qed.

Lemma members_foldl_None (l : list (string * @Item Obj)) : forall acc k',
  foldl json_member acc l !! k' = None <->
  acc !! k' = None /\ forall k it, (k, it) ∈ l -> json_key k <> k'.
Proof.
  induction l as [|[k0 it0] l IH]; intros acc k'; cbn [foldl].
  - split; [|by intros [? _]]. intros H. split; [done|]. intros k it Hin.
    by apply elem_of_nil in Hin.
  - rewrite IH. unfold json_member. cbn. split.
    + intros [Hins Hl]. apply lookup_insert_None in Hins as [Hacc Hne].
      split; [done|]. intros k it Hin. apply elem_of_cons in Hin as [[= -> ->]|Hin]; [done|].
      by eapply Hl.
    + intros [Hacc Hl]. split.
      * apply lookup_insert_None. split; [done|]. apply (Hl k0 it0). left.
      * intros k it Hin. apply (Hl k it). by right.
Qed.

(** A member of the written object is an entry of the map, under the key
    as written. *)
Lemma json_members_lookup_Some (m : gmap string (@Item Obj)) k' it :
  json_members m !! k' = Some it -> exists k, json_key k = k' /\ m !! k = Some it.
Proof.
  unfold json_members. intros H. apply members_foldl_Some in H as [(k & Hk & Hin)|H].
  - exists k. split; [done|]. rewrite merge_sort_Permutation in Hin.
    by apply elem_of_map_to_list in Hin.
  - by rewrite lookup_empty in H.
Qed.

Lemma json_members_lookup_None (m : gmap string (@Item Obj)) k' :
  json_members m !! k' = None <-> forall k, json_key k = k' -> m !! k = None.
Proof.
  unfold json_members. rewrite members_foldl_None. split.
  - intros [_ H] k Hk. destruct (m !! k) as [it|] eqn:Hm; [|done].
    exfalso. apply (H k it); [|done]. rewrite merge_sort_Permutation.
    by apply elem_of_map_to_list.
  - intros H. split; [apply lookup_empty|]. intros k it Hin Hk.
    rewrite merge_sort_Permutation in Hin. apply elem_of_map_to_list in Hin.
    rewrite (H k Hk) in Hin. discriminate.
Qed.

(** An entry whose key no other entry is written alike is a member. *)
Lemma json_members_lookup_alone (m : gmap string (@Item Obj)) k it :
  m !! k = Some it ->
  (forall k2, is_Some (m !! k2) -> json_key k2 = json_key k -> k2 = k) ->
  json_members m !! json_key k = Some it.
Proof.
  intros Hm Huniq. destruct (json_members m !! json_key k) as [it'|] eqn:H.
  - apply json_members_lookup_Some in H as (k2 & Hk2 & Hm2).
    rewrite (Huniq k2) in Hm2 by done. congruence.
  - rewrite json_members_lookup_None in H. rewrite (H k) in Hm; done.
Qed.

Lemma written_alone_spec (m : gmap string (@Item Obj)) k :
  written_alone m k = true ->
  forall k2 it2, m !! k2 = Some it2 -> json_key k2 = json_key k -> k2 = k.
Proof.
  unfold written_alone. rewrite forallb_forall. intros H k2 it2 Hk2 Heq.
  apply elem_of_map_to_list, list_elem_of_In in Hk2. specialize (H _ Hk2).
  cbn [fst] in H. rewrite Heq, String.eqb_refl in H. by apply String.eqb_eq in H.
Qed.

Lemma never_written_spec (m : gmap string (@Item Obj)) k' :
  never_written m k' = true ->
  forall k it, m !! k = Some it -> json_key k <> k'.
Proof.
  unfold never_written. rewrite forallb_forall. intros H k it Hk Heq.
  apply elem_of_map_to_list, list_elem_of_In in Hk. specialize (H _ Hk).
  cbn [fst] in H. rewrite Heq, String.eqb_refl in H. discriminate H.
Qed.

Lemma json_members_empty : json_members (∅ : gmap string (@Item Obj)) = ∅.
Proof. unfold json_members. by rewrite map_to_list_empty. Qed.


(** The persistence steps always return, and leave the service alone. *)
Lemma saveFile_returns c w :
  wp saveFile (c, w) (fun _ s' => s'.1 = c).
Proof.
  unfold saveFile, cache_Items. files_ops. repeat wp_step; apply set_cache_id || done.
Qed.

Lemma uploadCloudCache_returns c w :
  wp uploadCloudCache (c, w) (fun _ s' => s'.1 = c /\ files s'.2 = files w).
Proof. unfold uploadCloudCache. files_ops. repeat wp_step; done. Qed.

(** [saveFile] when nothing stands in its way: the snapshot holds the
    entries that are live at the reading of the clock [Items] takes. *)
Lemma saveFile_permitted c w :
  save_permitted c w ->
  wp saveFile (c, w) (fun r s' =>
    r = None /\ s'.1 = c
    /\ files s'.2 = <[filePath c :=
          Snapshot (json_members
                      (filter (fun kv => live_at (UnixNano (clock w (ticks w))) kv.2)
                         (items (cache c))))]> (files w)
    /\ clock s'.2 = clock w /\ denied s'.2 = denied w
    /\ ticks s'.2 = S (ticks w) /\ objects s'.2 = objects w).
Proof.
  intros (Hstat & Hmk & Hcr & Henc).
  unfold saveFile, cache_Items. files_ops.
  repeat wp_step; cbn in *; rewrite ?Hstat, ?Hmk, ?Hcr, ?Henc in *;
    simplify_eq; try discriminate.
  all: rewrite ?set_cache_id, insert_insert_eq; done.
Qed.

Lemma deleteCloudCache_spec c w :
  wp deleteCloudCache (c, w) (fun r s' =>
    s'.1 = c /\ files s'.2 = files w /\ dirs s'.2 = dirs w /\ denied s'.2 = denied w
    /\ (forall e, r = Some e -> remote_delete_error c e)
    /\ (is_Some (CloudClient (StoreConfig c)) ->
        denied w (OsStat (filePath c)) = false ->
        exists_path (filePath c) w = true ->
        denied w NewCloudFileRequest = false ->
        trace s'.2 = DeleteObject :: NewCloudFileRequest :: OsStat (filePath c) :: trace w)).
Proof.
  unfold deleteCloudCache. files_ops.
  repeat wp_step; cbn in *; repeat split; try done.
  all: try (intros e0 [= <-]; constructor).
  all: try (intros [? ?]; congruence).
  all: intros _ Hs He Hr; rewrite ?Hs, ?Hr in *; cbn in *;
    unfold exists_path in *; cbn in *; congruence.
Qed.

Lemma save_and_upload_returns c w :
  wp save_and_upload (c, w) (fun _ s' => s'.1 = c).
Proof.
  unfold save_and_upload. do 2 wp_step. wp_step.
  eapply wp_mono; [apply saveFile_returns|]. intros r [c1 w1] Hc. cbn in Hc. subst c1.
  repeat wp_step; try done.
  eapply wp_mono; [apply uploadCloudCache_returns|]. by intros ? ? [? ?].
Qed.

Lemma bind_eq {S A B} (m : ST S A) (k : A -> ST S B) s a s' :
  m s = Some (a, s') -> bind m k s = k a s'.
Proof. intros Hm. unfold bind. by rewrite Hm. Qed.

(** [Clear] on a dirty instance whose save is not hindered leaves the
    snapshot of the live entries in the file, whatever the later steps
    do. *)
Lemma Clear_dirty_permitted c w :
  dirty c -> save_permitted c w ->
  wp Clear (c, w) (fun _ s' =>
    files s'.2 !! filePath c =
      Some (Snapshot (json_members
                        (filter (fun kv => live_at (UnixNano (clock w (ticks w))) kv.2)
                           (items (cache c)))))).
Proof.
  intros Hd Hperm. unfold Clear, clear, Updated, save_and_upload.
  do 7 wp_step. rewrite bool_decide_true by done. do 3 wp_step.
  eapply wp_mono; [by apply saveFile_permitted|].
  intros r [c1 w1] (-> & Hc & Hf & _). cbn in Hc, Hf. subst c1.
  assert (Hlook : files w1 !! filePath c =
      Some (Snapshot (json_members
                        (filter (fun kv => live_at (UnixNano (clock w (ticks w))) kv.2)
                           (items (cache c)))))).
  { rewrite Hf. apply lookup_insert_eq. }
  unfold cache_Flush, cloud_Close.
  destruct (CloudClient (StoreConfig c)).
  - eapply wp_mono; [apply uploadCloudCache_returns|].
    intros r [c2 w2] (Hc & Hf2). cbn in Hc, Hf2. subst c2.
    repeat wp_step; cbn; by rewrite ?Hf2.
  - repeat wp_step; done.
Qed.

(** The two ways [clear] ends: with the error of the save or upload
    and nothing else done, or past the flush. *)
Lemma clear_cases c w :
  exists p w1,
    (if bool_decide (dirty c) then save_and_upload else ret None) (c, w) = Some (p, (c, w1))
    /\ match p with
       | Some e => Clear (c, w) = Some (Some e, (c, w1))
       | None =>
           exists r w',
             Clear (c, w) = Some (r, (flushed c, w'))
             /\ items (cache (flushed c)) = ∅
             /\ match CloudClient (StoreConfig c) with
                | Some _ => trace w' = CloseClient :: trace w1
                | None => w' = w1 /\ r = None
                end
       end.
Proof.
  assert (Hrun : wp (if bool_decide (dirty c) then save_and_upload else ret None) (c, w)
                   (fun _ s' => s'.1 = c)).
  { case_bool_decide; [apply save_and_upload_returns | by apply wp_ret]. }
  destruct Hrun as (p & [c1 w1] & Hp & Hc). cbn in Hc. subst c1.
  exists p, w1. split; [done|].
  unfold Clear, clear, Updated.
  rewrite (bind_eq this _ (c, w) c (c, w)) by reflexivity.
  rewrite (bind_eq _ _ (c, w) (bool_decide (dirty c)) (c, w)) by reflexivity.
  rewrite (bind_eq _ _ (c, w) p (c, w1)) by exact Hp.
  destruct p as [e|]; [reflexivity|].
  match goal with
  | |- exists r w', ?m ?s = _ /\ _ =>
      assert (Hrest : wp m s (fun r s' =>
        s'.1 = flushed c
        /\ match CloudClient (StoreConfig c) with
           | Some _ => trace s'.2 = CloseClient :: trace w1
           | None => s'.2 = w1 /\ r = None
           end))
  end.
  { unfold cache_Flush, cloud_Close. repeat wp_step; by rewrite ?Heqo. }
  destruct Hrest as (r & [c' w'] & Hrun & Hc & Hcl). cbn in Hc, Hcl. subst c'.
  exists r, w'. done.
Qed.

(** C1, as the code has it: [Clear] flushes the store, and closes the
    remote client when one is configured, exactly when the instance is not
    dirty or its save and upload succeed.  When the save or the upload
    returns an error, [Clear] returns that error at once: the service, its
    entries included, is as it was, and no call to close the client is
    made. *)
Theorem Clear_flushes_unless_persisting_fails c w :
  exists p w1,
    (if bool_decide (dirty c) then save_and_upload else ret None) (c, w) = Some (p, (c, w1))
    /\ match p with
       | Some e => Clear (c, w) = Some (Some e, (c, w1))
       | None =>
           exists r w',
             Clear (c, w) = Some (r, (flushed c, w'))
             /\ items (cache (flushed c)) = ∅
             /\ match CloudClient (StoreConfig c) with
                | Some _ => trace w' = CloseClient :: trace w1
                | None => w' = w1 /\ r = None
                end
       end.
Proof. apply clear_cases. Qed.

(** C2: [Clear] leaves [loadedAt] and [updatedAt] as they were.  So after
    a successful [Clear] of a dirty instance the store is empty and
    [Updated] still answers true, and a second [Clear] whose save is not
    hindered writes the snapshot again, now of the empty entry set. *)
Theorem Clear_keeps_the_timestamps c w :
  exists r c' w',
    Clear (c, w) = Some (r, (c', w'))
    /\ loadedAt c' = loadedAt c /\ updatedAt c' = updatedAt c
    /\ (dirty c -> r = None ->
        items (cache c') = ∅
        /\ Updated (c', w') = Some (true, (c', w'))
        /\ forall w2, save_permitted c' w2 ->
             exists r2 c2 w3,
               Clear (c', w2) = Some (r2, (c2, w3))
               /\ files w3 !! filePath c' = Some (Snapshot ∅)).
Proof.
  destruct (clear_cases c w) as (p & w1 & _ & Hcase). destruct p as [e|].
  - exists (Some e), c, w1. repeat split; try done.
  - destruct Hcase as (r & w' & Hclear & Hitems & _).
    exists r, (flushed c), w'. split; [done|]. split; [done|]. split; [done|].
    intros Hd _. split; [done|]. split.
    { rewrite Updated_run. by rewrite bool_decide_true. }
    intros w2 Hperm.
    destruct (Clear_dirty_permitted (flushed c) w2 Hd Hperm) as (r2 & [c2 w3] & Hrun & Hf).
    exists r2, c2, w3. split; [done|]. cbn in Hf. rewrite Hf.
    by rewrite map_filter_empty, json_members_empty.
Qed.

(** C8: [ClearFile] on a missing snapshot file returns an error after
    the [os.Stat] and nothing else is attempted or changed.  When the file
    is there and a remote backend is configured, [deleteCloudCache] runs
    first and [os.Remove] after it; the local file is removed whatever the
    remote delete returned, and what [ClearFile] returns is what the
    remote delete returned. *)
Theorem ClearFile_remote_first_then_local c w :
  (exists_path (filePath c) w = false ->
     exists e w',
       ClearFile (c, w) = Some (Some e, (c, w'))
       /\ files w' = files w /\ objects w' = objects w
       /\ trace w' = OsStat (filePath c) :: trace w)
  /\ (is_Some (files w !! filePath c) ->
      denied w (OsStat (filePath c)) = false ->
      denied w (OsRemove (filePath c)) = false ->
      is_Some (CloudClient (StoreConfig c)) ->
      exists cloudErr w1 w',
        deleteCloudCache (c, set_trace (OsStat (filePath c) :: trace w) w)
          = Some (cloudErr, (c, w1))
        /\ ClearFile (c, w) = Some (cloudErr, (c, w'))
        /\ files w' = base.delete (filePath c) (files w)
        /\ trace w' = OsRemove (filePath c) :: trace w1
        /\ (denied w NewCloudFileRequest = false ->
            trace w1 = DeleteObject :: NewCloudFileRequest :: OsStat (filePath c)
                         :: OsStat (filePath c) :: trace w)).
Proof.
  split.
  - intros Hno.
    assert (Hwp : wp ClearFile (c, w) (fun r s' =>
      is_Some r /\ s'.1 = c /\ files s'.2 = files w /\ objects s'.2 = objects w
      /\ trace s'.2 = OsStat (filePath c) :: trace w)).
    { unfold ClearFile. wp_run. rewrite Hno.
      destruct (denied w (OsStat (filePath c))); wp_run; done. }
    destruct Hwp as (r & [c' w'] & Hrun & [e ->] & Hc & Hrest). cbn in Hc. subst c'.
    by exists e, w'.
  - intros Hfile Hstat Hrm [cl Hcl].
    assert (Hex : exists_path (filePath c) w = true).
    { unfold exists_path. rewrite bool_decide_true by done. done. }
    destruct (deleteCloudCache_spec c (set_trace (OsStat (filePath c) :: trace w) w))
      as (cloudErr & [c1 w1] & Hdel & Hc & Hf & Hd & Hden & _ & Htr).
    cbn in Hc, Hf, Hd, Hden, Htr. subst c1.
    exists cloudErr, w1.
    assert (Hwp : wp ClearFile (c, w) (fun r s' =>
      r = cloudErr /\ s'.1 = c /\ files s'.2 = base.delete (filePath c) (files w)
      /\ trace s'.2 = OsRemove (filePath c) :: trace w1)).
    { unfold ClearFile. wp_run. rewrite Hstat, Hex, Hcl. wp_run.
      eapply wp_run; [exact Hdel|]. wp_run.
      rewrite Hden, Hrm, Hf. rewrite bool_decide_true by done. wp_run. done. }
    destruct Hwp as (r & [c' w'] & Hrun & -> & Hc & Hf' & Ht'). cbn in Hc, Hf', Ht'. subst c'.
    exists w'. repeat split; try done.
    intros Hreq. apply Htr; try done.
Qed.

(** C10: when the remote delete fails and the local removal fails too,
    [ClearFile] returns the error of the local removal; the error of the
    remote delete is not what is returned. *)
Theorem ClearFile_local_error_wins c w e w1 :
  is_Some (files w !! filePath c) ->
  denied w (OsStat (filePath c)) = false ->
  is_Some (CloudClient (StoreConfig c)) ->
  deleteCloudCache (c, set_trace (OsStat (filePath c) :: trace w) w) = Some (Some e, (c, w1)) ->
  denied w (OsRemove (filePath c)) = true ->
  exists w',
    ClearFile (c, w)
      = Some (Some (WrapError (CallError (OsRemove (filePath c)))
                      ("error removing file " +:+ filePath c)), (c, w'))
    /\ WrapError (CallError (OsRemove (filePath c))) ("error removing file " +:+ filePath c) <> e
    /\ files w' = files w.
Proof.
  intros Hfile Hstat [cl Hcl] Hdel Hrm.
  assert (Hex : exists_path (filePath c) w = true).
  { unfold exists_path. rewrite bool_decide_true by done. done. }
  pose proof (deleteCloudCache_spec c (set_trace (OsStat (filePath c) :: trace w) w)) as Hspec.
  apply (wp_inv _ _ _ _ _ Hspec) in Hdel as Hpost.
  destruct Hpost as (_ & Hf & _ & Hden & Herr & _). cbn in Hf, Hden.
  assert (Hwp : wp ClearFile (c, w) (fun r s' =>
    r = Some (WrapError (CallError (OsRemove (filePath c)))
                ("error removing file " +:+ filePath c))
    /\ s'.1 = c /\ files s'.2 = files w)).
  { unfold ClearFile. wp_run. rewrite Hstat, Hex, Hcl. wp_run.
    eapply wp_run; [exact Hdel|]. wp_run.
    rewrite Hden, Hrm. wp_run. done. }
  destruct Hwp as (r & [c' w'] & Hrun & -> & Hc & Hf'). cbn in Hc, Hf'. subst c'.
  exists w'. repeat split; try done.
  intros <-. specialize (Herr _ eq_refl). inversion Herr.
Qed.

(** *** Loading *)

Lemma Set_absent k (x : Obj) d c w :
  items (cache c) !! k = None -> 0 < d ->
  wp (Set_ k x d) (c, w) (fun r s' =>
    r = None
    /\ s'.2 = set_ticks (S (S (ticks w))) w
    /\ same_but_entries c s'.1
    /\ updatedAt s'.1 = Unix (clock w (S (ticks w)))
    /\ items (cache s'.1) = <[k := mkItem x (UnixNano (clock w (ticks w) + d))]> (items (cache c))).
Proof.
  intros Hk Hd. unfold Set_, cache_Add, cache_get, cache_set. wp_run.
  rewrite Hk. wp_run.
  destruct (decide (d = cache_DefaultExpiration)) as [->|_]; [done|].
  rewrite decide_True by done. wp_run. done.
Qed.

Lemma loaded_as_widen fn w lo hi lo' hi' v r :
  (lo' <= lo)%nat -> (hi <= hi')%nat ->
  loaded_as fn w lo hi v r -> loaded_as fn w lo' hi' v r.
Proof.
  intros Hlo Hhi. unfold loaded_as. destruct r as [it|].
  - intros (obj & i & Hfn & Hi & Hit & Hexp). exists obj, i.
    split; [done|]. split; [lia|]. split; [done|].
    destruct Hexp as [?|(j & Hj & ?)]; [by left|right]. exists j. split; [lia|done].
  - intros [(Hne & j & Hj & ?)|?]; [left|by right]. split; [done|]. exists j. split; [lia|done].
Qed.

Lemma same_but_entries_refl c : same_but_entries c c.
Proof. done. Qed.

Lemma same_but_entries_trans c1 c2 c3 :
  same_but_entries c1 c2 -> same_but_entries c2 c3 -> same_but_entries c1 c3.
Proof. unfold same_but_entries. intros (?&?&?&?&?) (?&?&?&?&?). repeat split; congruence. Qed.

(** One turn of the loop, on a key the store does not hold. *)
Lemma load_entry_spec fn k v c w :
  MarshalFn (cfg c) = Some fn ->
  items (cache c) !! k = None ->
  wp (load_entry k v) (c, w) (fun _ s' =>
    same_but_entries c s'.1
    /\ (exists n, (ticks w <= n)%nat /\ s'.2 = set_ticks n w
         /\ loaded_as fn w (ticks w) n v (items (cache s'.1) !! k))
    /\ (forall k', k' <> k -> items (cache s'.1) !! k' = items (cache c) !! k')).
Proof.
  intros Hfn Hk. unfold load_entry, Item_Expired.
  assert (Hconv : forall w1 n1,
    w1 = set_ticks n1 w -> (ticks w <= n1)%nat ->
    (Expiration v = 0
     \/ exists j, (ticks w <= j < n1)%nat /\ ~ Expiration v < UnixNano (clock w j)) ->
    wp (c0 <- this ;;
        match MarshalFn (cfg c0) with
        | Some fn0 => match fn0 (Object v) with
                      | Ok obj => Set_ k obj (5 * Hour) ;;; ret tt
                      | Err _ => ret tt
                      end
        | None => panic
        end) (c, w1) (fun _ s' =>
      same_but_entries c s'.1
      /\ (exists n, (ticks w <= n)%nat /\ s'.2 = set_ticks n w
           /\ loaded_as fn w (ticks w) n v (items (cache s'.1) !! k))
      /\ (forall k', k' <> k -> items (cache s'.1) !! k' = items (cache c) !! k'))).
  { intros w1 n1 -> Hn1 Hlive. wp_run. rewrite Hfn.
    destruct (fn (Object v)) as [obj|e] eqn:Hobj.
    - wp_seq. eapply wp_mono; [by apply Set_absent|].
      intros r [c' w'] (-> & Hw & Hsame & _ & Hitems). cbn in *. wp_run.
      split; [done|]. split.
      + exists (S (S n1)). split; [lia|]. split; [by subst|].
        rewrite Hitems, lookup_insert_eq. cbn. exists obj, n1.
        split; [done|]. split; [lia|]. split; [done|].
        destruct Hlive as [?|(j & Hj & ?)]; [by left|right]. exists j. split; [lia|done].
      + intros k' Hne. rewrite Hitems. by rewrite lookup_insert_ne.
    - wp_run. split; [done|]. split; [|done].
      exists n1. split; [done|]. split; [done|]. rewrite Hk. cbn. right. by exists e. }
  wp_seq. wp_seq.
  destruct (decide (Expiration v = 0)) as [Hz|Hnz].
  - wp_run. cbn. replace w with (set_ticks (ticks w) w) at 1 by (by destruct w).
    apply (Hconv _ (ticks w)); [done|lia|by left].
  - wp_run. case_bool_decide as Hexp; cbn.
    + wp_run. split; [done|]. split; [|done].
      exists (S (ticks w)). split; [lia|]. split; [done|]. rewrite Hk. cbn. left.
      split; [done|]. exists (ticks w). split; [lia|done].
    + apply (Hconv _ (S (ticks w))); [done|lia|]. right.
      exists (ticks w). split; [lia|done].
Qed.

Lemma set_ticks_set_ticks n m w : set_ticks n (set_ticks m w) = set_ticks n w.
Proof. done. Qed.

(** The loop of [load], over any enumeration without repeated keys of
    entries the store does not hold. *)
Lemma for_range_load_spec fn (l : list (string * Item)) : forall c w,
  NoDup l.*1 ->
  MarshalFn (cfg c) = Some fn ->
  (forall k, k ∈ l.*1 -> items (cache c) !! k = None) ->
  wp (for_range l load_entry) (c, w) (fun _ s' =>
    same_but_entries c s'.1
    /\ (exists n, (ticks w <= n)%nat /\ s'.2 = set_ticks n w
         /\ forall k v, (k, v) ∈ l ->
              loaded_as fn w (ticks w) n v (items (cache s'.1) !! k))
    /\ (forall k, k ∉ l.*1 -> items (cache s'.1) !! k = items (cache c) !! k)).
Proof.
  induction l as [|[k v] l IH]; intros c w Hnd Hfn Habs; cbn [for_range].
  - wp_run. split; [done|]. split; [|done].
    exists (ticks w). split; [done|]. split; [by destruct w|].
    intros k v Hin. by apply elem_of_nil in Hin.
  - cbn in Hnd. apply NoDup_cons in Hnd as [Hk Hnd].
    wp_seq. eapply wp_mono.
    { apply (load_entry_spec fn); [done|]. apply Habs. cbn. left. }
    intros _ [c1 w1] (Hsame & (n1 & Hn1 & Hw1 & Hload) & Hother). cbn in *. subst w1.
    eapply wp_mono.
    { apply IH; [done| |].
      - destruct Hsame as (Hcfg & _). by rewrite Hcfg.
      - intros k' Hk'. rewrite Hother by (intros ->; done).
        apply Habs. by right. }
    intros _ [c2 w2] (Hsame2 & (n2 & Hn2 & Hw2 & Hloads) & Hother2). cbn in *. subst w2.
    split; [by eapply same_but_entries_trans|]. split.
    + exists n2. split; [lia|]. split; [done|].
      intros k' v' Hin. apply elem_of_cons in Hin as [[= -> ->]|Hin].
      * rewrite Hother2 by done. eapply loaded_as_widen; [| |exact Hload]; lia.
      * specialize (Hloads k' v' Hin).
        eapply loaded_as_widen; [| |exact Hloads]; cbn; lia.
    + intros k' Hk'. apply not_elem_of_cons in Hk' as [Hne Hk'].
      rewrite Hother2 by done. by apply Hother.
Qed.

(** [load] of a readable snapshot into an empty store. *)
Lemma load_snapshot_spec fn p m c w :
  files w !! p = Some (Snapshot m) ->
  denied w JsonDecode = false ->
  MarshalFn (cfg c) = Some fn ->
  items (cache c) = ∅ ->
  wp (load json_reparse p) (c, w) (fun r s' =>
    r = None
    /\ cfg s'.1 = cfg c /\ StoreConfig s'.1 = StoreConfig c
    /\ loadedAt s'.1 = updatedAt s'.1
    /\ exists n, (ticks w < n)%nat
         /\ s'.2 = set_ticks n (set_trace (JsonDecode :: trace w) w)
         /\ loadedAt s'.1 = Unix (clock w (pred n))
         /\ (forall k v, reparsed json_reparse m !! k = Some v ->
               loaded_as fn w (ticks w) (pred n) v (items (cache s'.1) !! k))
         /\ (forall k, reparsed json_reparse m !! k = None ->
               items (cache s'.1) !! k = None)).
Proof.
  intros Hfile Hden Hfn Hempty. unfold load, setLoadedAt. wp_run.
  rewrite Hfile, Hden. wp_seq.
  eapply wp_mono.
  { apply (for_range_load_spec fn); [apply NoDup_fst_map_to_list|done|].
    intros k _. rewrite Hempty. apply lookup_empty. }
  intros _ [c1 w1] (Hsame & (n1 & Hn1 & Hw1 & Hloads) & Hother). cbn in *. subst w1.
  wp_run. cbn. destruct Hsame as (Hcfg & _ & _ & Hsc & _).
  split; [done|]. split; [done|]. split; [done|]. split; [done|].
  exists (S n1). split; [lia|]. split; [done|]. split; [done|]. split.
  - intros k v Hkv. apply Hloads. by apply elem_of_map_to_list.
  - intros k Hk. rewrite Hother; [by rewrite Hempty|].
    intros Hin. apply list_elem_of_fmap in Hin as ([k' v'] & -> & Hin).
    apply elem_of_map_to_list in Hin. cbn in Hk. congruence.
Qed.

(** What [loaded_as] means under a clock that does not go back. *)
Lemma loaded_as_expired fn w lo hi v r :
  monotone_clock w ->
  loaded_as fn w lo hi v r ->
  Expiration v <> 0 -> Expiration v < UnixNano (clock w lo) ->
  r = None.
Proof.
  intros Hmono Hload Hne Hexp. destruct r as [it|]; [|done].
  destruct Hload as (obj & i & _ & _ & _ & [?|(j & Hj & Hlive)]); [done|].
  exfalso. apply Hlive. specialize (Hmono lo j). lia.
Qed.

Lemma loaded_as_live fn w lo hi v r obj :
  monotone_clock w ->
  loaded_as fn w lo hi v r ->
  fn (Object v) = Ok obj ->
  Expiration v = 0 \/ ~ Expiration v < UnixNano (clock w hi) ->
  exists i, (lo <= i < hi)%nat /\ r = Some (mkItem obj (UnixNano (clock w i + 5 * Hour))).
Proof.
  intros Hmono Hload Hfn Hlive. destruct r as [it|].
  - destruct Hload as (obj' & i & Hfn' & Hi & -> & _). exists i.
    split; [done|]. congruence.
  - exfalso. destruct Hload as [(Hne & j & Hj & Hexp)|(e & He)]; [|congruence].
    destruct Hlive as [?|Hlive]; [done|]. apply Hlive.
    specialize (Hmono j hi). lia.
Qed.

(** [load] of a file that does not decode. *)
Lemma load_undecodable_spec p c w :
  (forall m, files w !! p <> Some (Snapshot m)) \/ denied w JsonDecode = true ->
  wp (load json_reparse p) (c, w) (fun r s' =>
    r = Some (CallError JsonDecode)
    /\ cfg s'.1 = cfg c /\ StoreConfig s'.1 = StoreConfig c
    /\ cache s'.1 = cache c
    /\ loadedAt s'.1 = updatedAt s'.1).
Proof.
  intros Hbad. unfold load, setLoadedAt. wp_run.
  destruct (files w !! p) as [[m|]|] eqn:Hfile.
  - destruct Hbad as [Hbad|Hden]; [by destruct (Hbad m)|].
    rewrite Hden. wp_run. done.
  - wp_run. done.
  - wp_run. done.
Qed.

(** C5, as the code has it: of the entries of a decoded snapshot, one
    that is expired when the load starts is dropped, and one that is
    still unexpired when the load ends and whose conversion succeeds is
    put in the store, as the converted object, with an expiration five
    hours after a reading of the clock taken during the load, whatever
    expiration the snapshot had for it. *)
Theorem load_keeps_converted_entries_for_five_hours fn p m c w k v :
  files w !! p = Some (Snapshot m) ->
  denied w JsonDecode = false ->
  MarshalFn (cfg c) = Some fn ->
  items (cache c) = ∅ ->
  monotone_clock w ->
  reparsed json_reparse m !! k = Some v ->
  exists c' w',
    load json_reparse p (c, w) = Some (None, (c', w'))
    /\ (ticks w < ticks w')%nat
    /\ (Expiration v <> 0 -> Expiration v < UnixNano (clock w (ticks w)) ->
        items (cache c') !! k = None)
    /\ (forall obj,
          fn (Object v) = Ok obj ->
          Expiration v = 0 \/ ~ Expiration v < UnixNano (clock w (pred (ticks w'))) ->
          exists i, (ticks w <= i < pred (ticks w'))%nat
            /\ items (cache c') !! k
                 = Some (mkItem obj (UnixNano (clock w i + 5 * Hour)))).
Proof.
  intros Hfile Hden Hfn Hempty Hmono Hkv.
  destruct (load_snapshot_spec fn p m c w Hfile Hden Hfn Hempty)
    as (r & [c' w'] & Hrun & -> & _ & _ & _ & n & Hn & Hw & _ & Hloads & _).
  cbn in *. subst w'. exists c'. eexists. split; [exact Hrun|]. cbn.
  split; [done|]. specialize (Hloads k v Hkv). split.
  - intros Hne Hexp. by eapply loaded_as_expired.
  - intros obj Hobj Hlive. by eapply loaded_as_live.
Qed.

(** C7: an entry whose conversion fails is left out and the load goes
    on: it returns no error and the other entries, unexpired and
    convertible, are in the store.  A file that does not decode makes
    [load] return an error, and the store is as it was. *)
Theorem load_skips_failed_conversions_only fn p c w :
  (forall m k v e,
     files w !! p = Some (Snapshot m) ->
     denied w JsonDecode = false ->
     MarshalFn (cfg c) = Some fn ->
     items (cache c) = ∅ ->
     monotone_clock w ->
     reparsed json_reparse m !! k = Some v ->
     fn (Object v) = Err e ->
     exists c' w',
       load json_reparse p (c, w) = Some (None, (c', w'))
       /\ items (cache c') !! k = None
       /\ forall k2 v2 obj,
            reparsed json_reparse m !! k2 = Some v2 ->
            fn (Object v2) = Ok obj ->
            Expiration v2 = 0 \/ ~ Expiration v2 < UnixNano (clock w (pred (ticks w'))) ->
            exists it, items (cache c') !! k2 = Some it /\ Object it = obj)
  /\ ((forall m, files w !! p <> Some (Snapshot m)) \/ denied w JsonDecode = true ->
      exists e c' w',
        load json_reparse p (c, w) = Some (Some e, (c', w'))
        /\ items (cache c') = items (cache c)).
Proof.
  split.
  - intros m k v e Hfile Hden Hfn Hempty Hmono Hkv Herr.
    destruct (load_snapshot_spec fn p m c w Hfile Hden Hfn Hempty)
      as (r & [c' w'] & Hrun & -> & _ & _ & _ & n & Hn & Hw & _ & Hloads & _).
    cbn in *. subst w'. exists c'. eexists. split; [exact Hrun|]. cbn. split.
    + specialize (Hloads k v Hkv). destruct (items (cache c') !! k) as [it|]; [|done].
      destruct Hloads as (obj & _ & Hobj & _). congruence.
    + intros k2 v2 obj Hkv2 Hobj Hlive.
      destruct (loaded_as_live _ _ _ _ _ _ obj Hmono (Hloads k2 v2 Hkv2) Hobj Hlive)
        as (i & _ & ->).
      eexists. split; [done|]. done.
  - intros Hbad.
    destruct (load_undecodable_spec p c w Hbad)
      as (r & [c' w'] & Hrun & -> & _ & _ & Hcache & _).
    cbn in *. exists (CallError JsonDecode), c', w'. split; [done|]. by rewrite Hcache.
Qed.

(** *** Construction *)

Lemma downloadCloudCache_returns c w :
  wp downloadCloudCache (c, w) (fun _ s' =>
    s'.1 = c /\ clock s'.2 = clock w /\ denied s'.2 = denied w).
Proof.
  unfold downloadCloudCache. wp_cases; done.
Qed.

Lemma load_returns fn p c w :
  MarshalFn (cfg c) = Some fn ->
  items (cache c) = ∅ ->
  wp (load json_reparse p) (c, w) (fun _ s' =>
    cfg s'.1 = cfg c /\ StoreConfig s'.1 = StoreConfig c
    /\ loadedAt s'.1 = updatedAt s'.1).
Proof.
  intros Hfn Hempty.
  destruct (files w !! p) as [[m|]|] eqn:Hfile;
    [destruct (denied w JsonDecode) eqn:Hden|..].
  - eapply wp_mono; [apply load_undecodable_spec; by right|].
    by intros ? ? (_ & ? & ? & _ & ?).
  - eapply wp_mono; [by eapply load_snapshot_spec|].
    by intros ? ? (_ & ? & ? & ? & _).
  - eapply wp_mono; [apply load_undecodable_spec; left; congruence|].
    by intros ? ? (_ & ? & ? & _ & ?).
  - eapply wp_mono; [apply load_undecodable_spec; left; congruence|].
    by intros ? ? (_ & ? & ? & _ & ?).
Qed.

(** [loadFile] on a service fresh from [newCacheService]: it returns,
    with or without an error, and leaves the two timestamps equal. *)
Lemma loadFile_returns fn c w :
  MarshalFn (cfg c) = Some fn ->
  items (cache c) = ∅ ->
  loadedAt c = updatedAt c ->
  wp (loadFile json_reparse) (c, w) (fun r s' =>
    cfg s'.1 = cfg c /\ StoreConfig s'.1 = StoreConfig c
    /\ loadedAt s'.1 = updatedAt s'.1
    /\ (CloudClient (StoreConfig c) = None -> exists_path (filePath c) w = false ->
        s'.1 = c /\ is_Some r)).
Proof.
  intros Hfn Hempty Hclean.
  assert (Hrest : forall w1,
    wp (err <- io (os_Open (filePath c)) ;;
        match err with
        | Some e => ret (Some (WrapError e ERROR_OPENING_CACHE_FILE))
        | None =>
            err0 <- load json_reparse (filePath c) ;;
            match err0 with
            | Some e => ret (Some (WrapError e ERROR_LOADING_CACHE_FILE))
            | None => ret None
            end
        end) (c, w1) (fun _ s' =>
      cfg s'.1 = cfg c /\ StoreConfig s'.1 = StoreConfig c
      /\ loadedAt s'.1 = updatedAt s'.1)).
  { intros w1. wp_run.
    destruct (denied w1 (OsOpen (filePath c))); [|destruct (exists_path (filePath c) w1)];
      wp_run; try done.
    eapply wp_mono; [by eapply load_returns|].
    intros r [c2 w2] (? & ? & ?). cbn in *. destruct r; wp_run; done. }
  unfold loadFile. wp_run.
  destruct (denied w (OsStat (filePath c))) eqn:Hden;
    [|destruct (exists_path (filePath c) w) eqn:Hex].
  - destruct (CloudClient (StoreConfig c)) eqn:Hcl; wp_run.
    + eapply wp_mono; [apply downloadCloudCache_returns|].
      intros r [c1 w1] (Hc & _). cbn in Hc. subst c1.
      destruct r; [wp_run; done|]. wp_seq. cbn beta iota.
      eapply wp_mono; [apply Hrest|]. by intros ? ? (? & ? & ?).
    + done.
  - do 2 wp_seq. cbn beta iota. eapply wp_mono; [apply Hrest|].
    intros ? ? (? & ? & ?). repeat split; try done; congruence.
  - destruct (CloudClient (StoreConfig c)) eqn:Hcl; wp_run.
    + eapply wp_mono; [apply downloadCloudCache_returns|].
      intros r [c1 w1] (Hc & _). cbn in Hc. subst c1.
      destruct r; [wp_run; done|]. wp_seq. cbn beta iota.
      eapply wp_mono; [apply Hrest|]. by intros ? ? (? & ? & ?).
    + done.
Qed.

Lemma newCacheService_ok conf l fn :
  DataDir conf <> "" -> MarshalFn conf = Some fn ->
  exists c0,
    newCacheService ERROR_MISSING_REQUIRED conf (Some l) = Ok c0
    /\ MarshalFn (cfg c0) = Some fn
    /\ DataDir (cfg c0) = DataDir conf
    /\ CacheFileName (cfg c0)
        = (if decide (CacheFileName conf = "") then DEFAULT_CACHE_FILE_NAME
           else CacheFileName conf)
    /\ items (cache c0) = ∅
    /\ loadedAt c0 = 0 /\ updatedAt c0 = 0
    /\ StoreConfig c0 = mkStorageConfig "" "" None.
Proof.
  intros Hdir Hfn. unfold newCacheService.
  rewrite decide_False by done. rewrite Hfn.
  eexists. split; [reflexivity|]. cbn.
  destruct (decide (CacheFileName conf = "")); done.
Qed.

Lemma ItemCount_run c w : ItemCount (c, w) = Some (size (items (cache c)), (c, w)).
Proof.
  unfold ItemCount, itemCount, cache_ItemCount. monad. cbn. by rewrite set_cache_id.
Qed.

(** C9: given a data directory and a conversion function, a constructor
    returns a service whatever [loadFile] returned, be it a loaded
    snapshot, a file that does not decode, a failed download or no file at
    all, and [Updated] answers false on it.  With no remote backend and
    no snapshot file the service is the fresh one, with no entries. *)
Theorem constructors_return_a_clean_service conf l fn w :
  DataDir conf <> "" ->
  MarshalFn conf = Some fn ->
  (exists c0 r c w',
     newCacheService ERROR_MISSING_REQUIRED conf (Some l) = Ok c0
     /\ loadFile json_reparse (c0, w) = Some (r, (c, w'))
     /\ NewCacheService json_reparse ERROR_MISSING_REQUIRED conf (Some l) w = Some (Ok c, w')
     /\ Updated (c, w') = Some (false, (c, w'))
     /\ (exists_path (filePath c0) w = false ->
         is_Some r /\ ItemCount (c, w') = Some (0%nat, (c, w'))))
  /\ (forall cloud,
       Bucket cloud <> "" ->
       is_Some (CloudClient cloud)
         \/ (CredsPath cloud <> "" /\ denied w NewCloudStorageClient = false) ->
       exists c w',
         NewWithCloudBackup json_reparse ERROR_MISSING_REQUIRED conf cloud (Some l) w
           = Some (Ok c, w')
         /\ is_Some (CloudClient (StoreConfig c))
         /\ Updated (c, w') = Some (false, (c, w'))).
Proof.
  intros Hdir Hfn.
  destruct (newCacheService_ok conf l fn Hdir Hfn)
    as (c0 & Hnew & Hfn0 & _ & _ & Hempty & Hl & Hu & Hsc).
  split.
  - destruct (loadFile_returns fn c0 w Hfn0 Hempty ltac:(congruence))
      as (r & [c w'] & Hrun & _ & _ & Hclean & Hfresh). cbn in Hclean, Hfresh.
    exists c0, r, c, w'. split; [done|]. split; [done|]. split.
    { unfold NewCacheService. rewrite Hnew. unfold construct. by rewrite Hrun. }
    split.
    { rewrite Updated_run. rewrite bool_decide_false; [done|]. unfold dirty. lia. }
    intros Hno. destruct Hfresh as [-> Hr]; [by rewrite Hsc|done|].
    split; [done|]. rewrite ItemCount_run. by rewrite Hempty.
  - intros cloud Hbucket Hclient.
    assert (Hgo : forall cloud' w1,
      is_Some (CloudClient cloud') ->
      exists c w',
        construct (set_StoreConfig cloud' c0) (loadFile json_reparse) w1 = Some (Ok c, w')
        /\ is_Some (CloudClient (StoreConfig c))
        /\ Updated (c, w') = Some (false, (c, w'))).
    { intros cloud' w1 Hcl.
      destruct (loadFile_returns fn (set_StoreConfig cloud' c0) w1)
        as (r & [c w'] & Hrun & _ & Hsc' & Hclean & _); [done|done|cbn; congruence|].
      cbn in Hsc', Hclean. exists c, w'. split; [unfold construct; by rewrite Hrun|].
      split; [by rewrite Hsc'|].
      rewrite Updated_run. rewrite bool_decide_false; [done|]. unfold dirty. lia. }
    unfold NewWithCloudBackup.
    rewrite decide_False by (intros [?|?]; done). rewrite Hfn.
    destruct (CloudClient cloud) as [cl|] eqn:Hcl.
    + rewrite (bind_eq _ _ w (Ok cloud) w) by reflexivity. cbv beta iota.
      rewrite decide_False by done. rewrite Hnew.
      apply Hgo. by rewrite Hcl.
    + destruct Hclient as [[? [=]]|[Hcreds Hden]].
      rewrite decide_False by (intros [?|?]; done).
      rewrite (bind_eq _ _ w
                 (Ok (mkStorageConfig (CredsPath cloud) (Bucket cloud) (Some Client)))
                 (set_trace (NewCloudStorageClient :: trace w) w)).
      2: { unfold cloud_NewCloudStorageClient, attempt. monad. cbn. by rewrite Hden. }
      cbv beta iota. cbn [Bucket].
      rewrite decide_False by done. rewrite Hnew. apply Hgo. done.
Qed.

(** *** The round trip *)

Lemma exists_path_set_trace p t w : exists_path p (set_trace t w) = exists_path p w.
Proof. done. Qed.

Lemma exists_path_set_ticks p n w : exists_path p (set_ticks n w) = exists_path p w.
Proof. done. Qed.

Lemma UnixNano_small t : - 2 ^ 63 <= t < 2 ^ 63 -> UnixNano t = t.
Proof.
  unfold UnixNano, wrap64.
  change (2 ^ 63) with 9223372036854775808.
  change (2 ^ 64) with 18446744073709551616.
  intros Ht. rewrite Z.mod_small; lia.
Qed.

Lemma steady_clock_UnixNano w i :
  steady_clock w -> UnixNano (clock w i) = clock w i.
Proof.
  intros [_ Hr]. specialize (Hr i). apply UnixNano_small.
  unfold Hour, Minute, Second in *.
  change (2 ^ 63) with 9223372036854775808 in *. lia.
Qed.

Lemma steady_clock_monotone w : steady_clock w -> monotone_clock w.
Proof.
  intros Hs i j Hij. rewrite !steady_clock_UnixNano by done. by apply Hs.
Qed.

Lemma loadFile_no_file c w :
  CloudClient (StoreConfig c) = None ->
  denied w (OsStat (filePath c)) = false ->
  exists_path (filePath c) w = false ->
  loadFile json_reparse (c, w)
    = Some (Some (WrapError (ErrNotExist (filePath c)) "error no cache file"),
            (c, set_trace (OsStat (filePath c) :: trace w) w)).
Proof.
  intros Hcl Hden Hno.
  assert (Hwp : wp (loadFile json_reparse) (c, w) (fun r s' =>
    r = Some (WrapError (ErrNotExist (filePath c)) "error no cache file")
    /\ s' = (c, set_trace (OsStat (filePath c) :: trace w) w))).
  { unfold loadFile. wp_run. rewrite Hden, Hno, Hcl. wp_run. done. }
  by destruct Hwp as (r & s' & -> & -> & ->).
Qed.

Lemma loadFile_snapshot_spec fn m c w :
  files w !! filePath c = Some (Snapshot m) ->
  denied w (OsStat (filePath c)) = false ->
  denied w (OsOpen (filePath c)) = false ->
  denied w JsonDecode = false ->
  MarshalFn (cfg c) = Some fn ->
  items (cache c) = ∅ ->
  wp (loadFile json_reparse) (c, w) (fun r s' =>
    r = None
    /\ loadedAt s'.1 = updatedAt s'.1
    /\ clock s'.2 = clock w
    /\ (ticks w < ticks s'.2)%nat
    /\ (forall k v, reparsed json_reparse m !! k = Some v ->
          loaded_as fn w (ticks w) (pred (ticks s'.2)) v (items (cache s'.1) !! k))
    /\ (forall k, reparsed json_reparse m !! k = None ->
          items (cache s'.1) !! k = None)).
Proof.
  intros Hfile Hstat Hopen Hdec Hfn Hempty.
  assert (Hex : exists_path (filePath c) w = true).
  { unfold exists_path. rewrite bool_decide_true by done. done. }
  unfold loadFile. wp_run. rewrite Hstat, Hex. wp_run.
  rewrite Hopen, exists_path_set_trace, Hex. wp_seq.
  eapply wp_mono; [by eapply (load_snapshot_spec fn _ m)|].
  intros r [c' w'] (-> & _ & _ & Hclean & n & Hn & Hw & _ & Hloads & Hnone).
  cbn in Hclean, Hn, Hw, Hloads, Hnone. subst w'. wp_run. cbn.
  split; [done|]. split; [done|]. split; [done|]. split; [done|].
  split; [|done]. intros k v Hkv. exact (Hloads k v Hkv).
Qed.





(** * More of the facade *)

(** *** The store operations *)

(** What [Get] returns, and that it leaves the service alone. *)
Lemma Get_spec k c w :
  wp (Get k) (c, w) (fun r s' =>
    s'.1 = c
    /\ r = match items (cache c) !! k with
           | None => (None, None)
           | Some it =>
               if decide (0 < Expiration it) then
                 if decide (Expiration it < UnixNano (clock w (ticks w)))
                 then (None, None)
                 else (Some (Object it), Some (Expiration it))
               else (Some (Object it), None)
           end).
Proof.
  unfold Get, cache_GetWithExpiration. wp_run.
  destruct (items (cache c) !! k) as [it|]; wp_run.
  - destruct (decide (0 < Expiration it)); wp_run.
    + destruct (decide (Expiration it < UnixNano (clock w (ticks w)))); wp_run;
        cbn; wp_run; cbn; by rewrite set_cache_id.
    + cbn. wp_run. cbn. by rewrite set_cache_id.
  - cbn. wp_run. cbn. by rewrite set_cache_id.
Qed.

Lemma Get_run k c w :
  exists w',
    Get k (c, w)
    = Some (match items (cache c) !! k with
            | None => (None, None)
            | Some it =>
                if decide (0 < Expiration it) then
                  if decide (Expiration it < UnixNano (clock w (ticks w)))
                  then (None, None)
                  else (Some (Object it), Some (Expiration it))
                else (Some (Object it), None)
            end, (c, w')).
Proof.
  destruct (Get_spec k c w) as (r & [c' w'] & Hrun & Hc & ->). cbn in Hc. subst c'.
  by exists w'.
Qed.

(** X1: [Set] on a key absent from the store and [Get] of it while it has
    not expired: the value comes back with the expiration [Set] gave it,
    the reading of the clock plus the duration; [ItemCount] has grown by
    one. *)
Theorem Set_then_Get_returns_the_value k (v : Obj) d c w w2 :
  items (cache c) !! k = None ->
  0 < d ->
  0 < UnixNano (clock w (ticks w) + d) ->
  ~ UnixNano (clock w (ticks w) + d) < UnixNano (clock w2 (ticks w2)) ->
  exists c1 w1 w3,
    Set_ k v d (c, w) = Some (None, (c1, w1))
    /\ ItemCount (c1, w1) = Some (S (size (items (cache c))), (c1, w1))
    /\ Get k (c1, w2)
       = Some ((Some v, Some (UnixNano (clock w (ticks w) + d))), (c1, w3)).
Proof.
  intros Hk Hd Hpos Hlive.
  destruct (Set_absent k v d c w Hk Hd)
    as (r & [c1 w1] & Hset & -> & _ & _ & _ & Hitems). cbn in Hitems.
  destruct (Get_run k c1 w2) as (w3 & Hget).
  rewrite Hitems, lookup_insert_eq in Hget. cbn in Hget.
  rewrite decide_True in Hget by done. rewrite decide_False in Hget by done.
  exists c1, w1, w3. split; [done|]. split; [|done].
  rewrite ItemCount_run, Hitems. by rewrite map_size_insert_None.
Qed.

(** X2: [Set] on a key whose entry has expired and has not been swept: the
    old entry does not stand in the way; it is replaced, and [ItemCount]
    is what it was. *)
Theorem Set_replaces_an_expired_entry k (v : Obj) d c w it :
  items (cache c) !! k = Some it ->
  0 < Expiration it ->
  Expiration it < UnixNano (clock w (ticks w)) ->
  0 < d ->
  exists c1 w1,
    Set_ k v d (c, w) = Some (None, (c1, w1))
    /\ items (cache c1) !! k = Some (mkItem v (UnixNano (clock w (S (ticks w)) + d)))
    /\ (forall k', k' <> k -> items (cache c1) !! k' = items (cache c) !! k')
    /\ ItemCount (c1, w1) = Some (size (items (cache c)), (c1, w1))
    /\ updatedAt c1 = Unix (clock w (S (S (ticks w)))).
Proof.
  intros Hk Hpos Hexp Hd.
  assert (Hwp : wp (Set_ k v d) (c, w) (fun r s' =>
    r = None
    /\ items (cache s'.1) = <[k := mkItem v (UnixNano (clock w (S (ticks w)) + d))]>
                              (items (cache c))
    /\ updatedAt s'.1 = Unix (clock w (S (S (ticks w)))))).
  { unfold Set_, cache_Add, cache_get, cache_set. wp_run. rewrite Hk.
    rewrite decide_True by done. wp_run. rewrite decide_True by done. wp_run.
    destruct (decide (d = cache_DefaultExpiration)) as [->|_]; [done|].
    rewrite decide_True by done. wp_run. done. }
  destruct Hwp as (r & [c1 w1] & Hset & -> & Hitems & Hupd). cbn in Hitems, Hupd.
  exists c1, w1. split; [done|]. split; [by rewrite Hitems, lookup_insert_eq|].
  split; [intros k' Hne; by rewrite Hitems, lookup_insert_ne|]. split; [|done].
  rewrite ItemCount_run, Hitems. by rewrite map_size_insert_Some.
Qed.

(** X3: [Delete] takes the key out of the store, present or not, and marks
    the service updated either way: a later [Get] misses, the other keys
    are as they were, and [ItemCount] is one less exactly when the key was
    there. *)
Theorem Delete_removes_the_key k c w :
  exists c1 w1,
    Delete k (c, w) = Some (tt, (c1, w1))
    /\ items (cache c1) !! k = None
    /\ (forall k', k' <> k -> items (cache c1) !! k' = items (cache c) !! k')
    /\ (forall w2, exists w3, Get k (c1, w2) = Some ((None, None), (c1, w3)))
    /\ ItemCount (c1, w1)
       = Some (match items (cache c) !! k with
               | Some _ => pred (size (items (cache c)))
               | None => size (items (cache c))
               end, (c1, w1))
    /\ updatedAt c1 = Unix (clock w (ticks w))
    /\ loadedAt c1 = loadedAt c.
Proof.
  assert (Hwp : wp (Delete k) (c, w) (fun _ s' =>
    items (cache s'.1) = base.delete k (items (cache c))
    /\ updatedAt s'.1 = Unix (clock w (ticks w))
    /\ loadedAt s'.1 = loadedAt c)).
  { unfold Delete, delete_, cache_Delete. wp_run. done. }
  destruct Hwp as ([] & [c1 w1] & Hrun & Hitems & Hupd & Hl). cbn in Hitems, Hupd, Hl.
  exists c1, w1. split; [done|]. split; [by rewrite Hitems, lookup_delete_eq|].
  split; [intros k' Hne; by rewrite Hitems, lookup_delete_ne|]. split.
  { intros w2. destruct (Get_run k c1 w2) as (w3 & Hget).
    rewrite Hitems, lookup_delete_eq in Hget. by exists w3. }
  split; [|done]. rewrite ItemCount_run, Hitems, map_size_delete.
  by destruct (items (cache c) !! k).
Qed.

Lemma Items_run c w :
  Items (c, w)
  = Some (filter (fun kv => live_at (UnixNano (clock w (ticks w))) kv.2) (items (cache c)),
          (c, set_ticks (S (ticks w)) w)).
Proof.
  unfold Items, items_, cache_Items. monad. cbn. by rewrite set_cache_id.
Qed.

Lemma DeleteExpired_spec c w :
  wp DeleteExpired (c, w) (fun _ s' =>
    items (cache s'.1)
    = filter (fun kv => live_at (UnixNano (clock w (ticks w))) kv.2) (items (cache c))
    /\ loadedAt s'.1 = loadedAt c /\ updatedAt s'.1 = updatedAt c).
Proof. unfold DeleteExpired, deleteExpired, cache_DeleteExpired. wp_run. done. Qed.

(** X4: An entry past its expiration stays in the store until it is swept:
    [Get] misses it and [Items] leaves it out, yet [ItemCount] counts it;
    [DeleteExpired] then removes it, so that the count goes down, and
    keeps every entry that is still live. *)
Theorem expired_entries_linger_until_swept k c w it :
  items (cache c) !! k = Some it ->
  0 < Expiration it ->
  Expiration it < UnixNano (clock w (ticks w)) ->
  (exists w', Get k (c, w) = Some ((None, None), (c, w')))
  /\ (exists m w', Items (c, w) = Some (m, (c, w')) /\ m !! k = None)
  /\ (exists n, ItemCount (c, w) = Some (S n, (c, w)))
  /\ (exists c1 w1,
        DeleteExpired (c, w) = Some (tt, (c1, w1))
        /\ items (cache c1) !! k = None
        /\ (size (items (cache c1)) < size (items (cache c)))%nat
        /\ forall k' it',
             items (cache c) !! k' = Some it' ->
             live_at (UnixNano (clock w (ticks w))) it' ->
             items (cache c1) !! k' = Some it').
Proof.
  intros Hk Hpos Hexp.
  assert (Hdead : ~ live_at (UnixNano (clock w (ticks w))) it).
  { intros Hlive. by apply Hlive. }
  assert (Hfilter :
    filter (fun kv => live_at (UnixNano (clock w (ticks w))) kv.2) (items (cache c)) !! k
    = None).
  { apply map_lookup_filter_None. right. intros it' Hit'. by simplify_eq. }
  split.
  { destruct (Get_run k c w) as (w' & Hget). rewrite Hk in Hget.
    rewrite !decide_True in Hget by done. by exists w'. }
  split.
  { eexists _, _. split; [apply Items_run|]. done. }
  split.
  { rewrite ItemCount_run. destruct (size (items (cache c))) as [|n] eqn:Hsz.
    - apply map_size_empty_inv in Hsz. by rewrite Hsz in Hk.
    - by exists n. }
  destruct (DeleteExpired_spec c w) as ([] & [c1 w1] & Hrun & Hitems & _).
  cbn in Hitems. exists c1, w1. split; [done|]. rewrite Hitems. split; [done|]. split.
  - assert (Hsub :
      filter (fun kv => live_at (UnixNano (clock w (ticks w))) kv.2) (items (cache c))
      ⊆ base.delete k (items (cache c))).
    { apply map_subseteq_spec. intros k' it' Hin.
      apply map_lookup_filter_Some in Hin as [Hin Hlive].
      rewrite lookup_delete_ne; [done|]. intros <-. by simplify_eq. }
    apply map_subseteq_size in Hsub. rewrite map_size_delete_Some in Hsub by done.
    assert (size (items (cache c)) <> 0%nat); [|lia].
    by apply map_size_ne_0_lookup_2 with k.
  - intros k' it' Hin Hlive. by apply map_lookup_filter_Some.
Qed.

(** X5: The duration given to [Set], on a service fresh from
    [newCacheService] and a key it does not hold: zero stands for the
    default expiration, which is the configured one or five minutes when
    the configuration gives none; a negative duration makes an entry that
    never expires, which [Get] returns with the zero time at any time. *)
Theorem Set_default_and_unlimited_duration conf l c0 k (v : Obj) d w :
  newCacheService ERROR_MISSING_REQUIRED conf (Some l) = Ok c0 ->
  d <= 0 ->
  exists c1 w1,
    Set_ k v d (c0, w) = Some (None, (c1, w1))
    /\ if decide (d = 0)
       then items (cache c1) !! k
            = Some (mkItem v
                      (UnixNano (clock w (ticks w)
                                 + (if decide (DefaultExpiration conf <= 0)
                                    then 5 * Minute else DefaultExpiration conf))))
       else items (cache c1) !! k = Some (mkItem v 0)
            /\ forall w2, exists w3, Get k (c1, w2) = Some ((Some v, None), (c1, w3)).
Proof.
  intros Hnew Hd.
  assert (Hc0 : items (cache c0) = ∅
                /\ defaultExpiration (cache c0)
                   = (if decide (DefaultExpiration conf <= 0)
                      then 5 * Minute else DefaultExpiration conf)).
  { unfold newCacheService in Hnew.
    destruct (decide (DataDir conf = "")); [done|].
    destruct (MarshalFn conf); [|done]. injection Hnew as <-. cbn. split; [done|].
    unfold DEFAULT_EXPIRATION.
    destruct (decide (DefaultExpiration conf <= 0)); [done|].
    rewrite decide_False; [done|lia]. }
  destruct Hc0 as [Hempty Hdef].
  assert (Hwp : wp (Set_ k v d) (c0, w) (fun r s' =>
    r = None
    /\ if decide (d = 0)
       then items (cache s'.1)
            = <[k := mkItem v (UnixNano (clock w (ticks w) + defaultExpiration (cache c0)))]>
                (items (cache c0))
       else items (cache s'.1) = <[k := mkItem v 0]> (items (cache c0)))).
  { unfold Set_, cache_Add, cache_get, cache_set. wp_run. rewrite Hempty, lookup_empty.
    wp_run. unfold cache_DefaultExpiration.
    destruct (decide (d = 0)) as [->|Hne].
    - rewrite decide_True.
      2: { rewrite Hdef. unfold Minute, Second.
           destruct (decide (DefaultExpiration conf <= 0)); lia. }
      wp_run. split; [done|]. cbn. by rewrite Hempty.
    - rewrite decide_False by lia. wp_run. split; [done|]. cbn.
      destruct (decide (d = 0)); [done|]. by rewrite Hempty. }
  destruct Hwp as (r & [c1 w1] & Hrun & -> & Hitems). cbn in Hitems.
  exists c1, w1. split; [done|].
  destruct (decide (d = 0)) as [->|Hne].
  - by rewrite Hitems, lookup_insert_eq, Hdef.
  - split; [by rewrite Hitems, lookup_insert_eq|].
    intros w2. destruct (Get_run k c1 w2) as (w3 & Hget).
    rewrite Hitems, lookup_insert_eq in Hget. cbn in Hget. by exists w3.
Qed.

(** *** Construction, refused *)

(** X6: A configuration without a data directory, a logger or a conversion
    function: both constructors return an error and no service, and make
    no external call. *)
Theorem constructors_refuse_an_incomplete_configuration conf l cloud w :
  DataDir conf = "" \/ l = None \/ MarshalFn conf = None ->
  (exists e, NewCacheService json_reparse ERROR_MISSING_REQUIRED conf l w = Some (Err e, w))
  /\ (exists e,
        NewWithCloudBackup json_reparse ERROR_MISSING_REQUIRED conf cloud l w
        = Some (Err e, w)).
Proof.
  intros Hbad. split.
  - unfold NewCacheService, newCacheService.
    destruct l as [lg|]; [|by eexists].
    destruct (decide (DataDir conf = "")); [by eexists|].
    destruct (MarshalFn conf) eqn:Hfn; [|by eexists].
    by destruct Hbad as [?|[?|?]].
  - unfold NewWithCloudBackup.
    destruct (decide (DataDir conf = "" \/ l = None)) as [?|Hok]; [by eexists|].
    destruct (MarshalFn conf) eqn:Hfn; [|by eexists].
    destruct Hbad as [?|[?|?]]; [| |done]; destruct Hok; auto.
Qed.

(** X7: [NewWithCloudBackup] with a complete cache configuration and an
    incomplete remote one.  Without a client and without a bucket or a
    credentials path it returns an error and calls nothing; when the
    client cannot be created it returns an error, that call being the only
    one made; with a client and no bucket it returns an error and calls
    nothing.  No file is read in any of these. *)
Theorem NewWithCloudBackup_refuses_an_incomplete_backend conf l fn cloud w :
  DataDir conf <> "" ->
  MarshalFn conf = Some fn ->
  (CloudClient cloud = None -> Bucket cloud = "" \/ CredsPath cloud = "" ->
   NewWithCloudBackup json_reparse ERROR_MISSING_REQUIRED conf cloud (Some l) w
   = Some (Err (NewAppError "missing bucket and cloud credentials"), w))
  /\ (CloudClient cloud = None -> Bucket cloud <> "" -> CredsPath cloud <> "" ->
      denied w NewCloudStorageClient = true ->
      NewWithCloudBackup json_reparse ERROR_MISSING_REQUIRED conf cloud (Some l) w
      = Some (Err (NewAppError "error creating cloud storage client"),
              set_trace (NewCloudStorageClient :: trace w) w))
  /\ (is_Some (CloudClient cloud) -> Bucket cloud = "" ->
      NewWithCloudBackup json_reparse ERROR_MISSING_REQUIRED conf cloud (Some l) w
      = Some (Err (NewAppError "missing bucket information"), w)).
Proof.
  intros Hdir Hfn. unfold NewWithCloudBackup.
  rewrite decide_False by (intros [?|?]; done). rewrite Hfn.
  split; [|split].
  - intros -> Hmiss. by rewrite decide_True.
  - intros -> Hb Hc Hden. rewrite decide_False by (intros [?|?]; done).
    unfold cloud_NewCloudStorageClient, attempt. monad. cbn. by rewrite Hden.
  - intros [cl ->] Hb. unfold bind, ret. by rewrite decide_True.
Qed.

(** *** Saving *)

(** X8: How [saveFile] fails.  When the directory cannot be examined or
    made, or the file cannot be created, the error names the step, and the
    files, an earlier snapshot among them, are as they were.  When the
    encoding fails the file has already been truncated by [os.Create]: the
    earlier snapshot is gone and the file does not decode. *)
Theorem saveFile_failures c w :
  (denied w (OsStat (fileDir c)) = true ->
   exists w',
     saveFile (c, w)
     = Some (Some (WrapError (CallError (OsStat (fileDir c))) ERROR_CREATING_CACHE_DIR),
             (c, w'))
     /\ files w' = files w /\ trace w' = OsStat (fileDir c) :: trace w)
  /\ (denied w (OsStat (fileDir c)) = false ->
      exists_path (fileDir c) w = false ->
      denied w (OsMkdirAll (fileDir c)) = true ->
      exists w',
        saveFile (c, w)
        = Some (Some (WrapError (CallError (OsMkdirAll (fileDir c)))
                        ERROR_CREATING_CACHE_DIR), (c, w'))
        /\ files w' = files w)
  /\ (denied w (OsStat (fileDir c)) = false ->
      exists_path (fileDir c) w = true \/ denied w (OsMkdirAll (fileDir c)) = false ->
      denied w (OsCreate (filePath c)) = true ->
      exists w',
        saveFile (c, w)
        = Some (Some (WrapError (CallError (OsCreate (filePath c)))
                        ERROR_GETTING_CACHE_FILE), (c, w'))
        /\ files w' = files w)
  /\ (denied w (OsStat (fileDir c)) = false ->
      exists_path (fileDir c) w = true \/ denied w (OsMkdirAll (fileDir c)) = false ->
      denied w (OsCreate (filePath c)) = false ->
      denied w JsonEncode = true ->
      exists w',
        saveFile (c, w)
        = Some (Some (WrapError (CallError JsonEncode) ERROR_SAVING_CACHE_FILE), (c, w'))
        /\ files w' !! filePath c = Some Unparsable).
Proof.
  assert (Hout : forall (Q : option error -> World -> Prop),
    wp saveFile (c, w) (fun r s' => s'.1 = c /\ Q r s'.2) ->
    exists w', (exists r, saveFile (c, w) = Some (r, (c, w')) /\ Q r w')).
  { intros Q (r & [c' w'] & Hrun & Hc & HQ). cbn in Hc, HQ. subst c'. by exists w', r. }
  split; [|split; [|split]].
  - intros Hstat.
    destruct (Hout (fun r w' =>
      r = Some (WrapError (CallError (OsStat (fileDir c))) ERROR_CREATING_CACHE_DIR)
      /\ files w' = files w /\ trace w' = OsStat (fileDir c) :: trace w))
      as (w' & r & Hrun & -> & Hrest).
    { unfold saveFile. wp_run. rewrite Hstat. wp_run. cbn. wp_run. done. }
    by exists w'.
  - intros Hstat Hno Hmk.
    destruct (Hout (fun r w' =>
      r = Some (WrapError (CallError (OsMkdirAll (fileDir c))) ERROR_CREATING_CACHE_DIR)
      /\ files w' = files w))
      as (w' & r & Hrun & -> & Hrest).
    { unfold saveFile. wp_run. rewrite Hstat, Hno. wp_run. cbn. wp_run.
      rewrite Hmk. wp_run. done. }
    by exists w'.
  - intros Hstat Hdir Hcr.
    destruct (Hout (fun r w' =>
      r = Some (WrapError (CallError (OsCreate (filePath c))) ERROR_GETTING_CACHE_FILE)
      /\ files w' = files w))
      as (w' & r & Hrun & -> & Hrest).
    { unfold saveFile. wp_run. rewrite Hstat.
      destruct (exists_path (fileDir c) w) eqn:Hex; wp_run.
      - rewrite Hcr. wp_run. done.
      - cbn. wp_run. destruct Hdir as [?|Hmk]; [done|]. rewrite Hmk. wp_run.
        rewrite Hcr. wp_run. done. }
    by exists w'.
  - intros Hstat Hdir Hcr Henc.
    destruct (Hout (fun r w' =>
      r = Some (WrapError (CallError JsonEncode) ERROR_SAVING_CACHE_FILE)
      /\ files w' !! filePath c = Some Unparsable))
      as (w' & r & Hrun & -> & Hrest).
    { unfold saveFile, cache_Items. wp_run. rewrite Hstat.
      destruct (exists_path (fileDir c) w) eqn:Hex; wp_run.
      - rewrite Hcr. wp_run. rewrite Henc. wp_run. cbn.
        split; [apply set_cache_id|]. split; [done|]. apply lookup_insert_eq.
      - cbn. wp_run. destruct Hdir as [?|Hmk]; [done|]. rewrite Hmk. wp_run.
        rewrite Hcr. wp_run. rewrite Henc. wp_run. cbn.
        split; [apply set_cache_id|]. split; [done|]. apply lookup_insert_eq. }
    by exists w'.
Qed.

(** X9: The round trip of a whole store through [saveFile] and [loadFile].
    [saveFile] writes the entries that are live when it reads the clock,
    each under its key as JSON has it, a byte that is not UTF-8 replaced
    by U+FFFD, and makes the directory when it is missing.  [loadFile],
    into the empty store of a service over the same file, in any world
    that holds that file: a key under which no live entry was written is
    absent; an entry that was live, whose key no other live entry is
    written alike, that is still unexpired when the load ends and is
    accepted, reparsed, by the conversion function is there under its key
    as written, converted, with five hours to live.  The loaded service
    is not dirty. *)
Theorem saveFile_then_loadFile fn c w :
  save_permitted c w ->
  exists w1,
    saveFile (c, w) = Some (None, (c, w1))
    /\ (exists_path (fileDir c) w = false -> fileDir c ∈ dirs w1)
    /\ forall c0 w2,
         filePath c0 = filePath c ->
         files w2 !! filePath c = files w1 !! filePath c ->
         MarshalFn (cfg c0) = Some fn ->
         items (cache c0) = ∅ ->
         denied w2 (OsStat (filePath c)) = false ->
         denied w2 (OsOpen (filePath c)) = false ->
         denied w2 JsonDecode = false ->
         monotone_clock w2 ->
         exists c0' w2',
           loadFile json_reparse (c0, w2) = Some (None, (c0', w2'))
           /\ ~ dirty c0'
           /\ (forall k',
                 (forall k it, items (cache c) !! k = Some it ->
                    live_at (UnixNano (clock w (ticks w))) it -> json_key k <> k') ->
                 items (cache c0') !! k' = None)
           /\ (forall k it obj,
                 items (cache c) !! k = Some it ->
                 live_at (UnixNano (clock w (ticks w))) it ->
                 (forall k2 it2, items (cache c) !! k2 = Some it2 ->
                    live_at (UnixNano (clock w (ticks w))) it2 ->
                    json_key k2 = json_key k -> k2 = k) ->
                 fn (json_reparse (Object it)) = Ok obj ->
                 Expiration it = 0
                 \/ ~ Expiration it < UnixNano (clock w2 (pred (ticks w2'))) ->
                 exists i,
                   items (cache c0') !! json_key k
                   = Some (mkItem obj (UnixNano (clock w2 i + 5 * Hour)))).
Proof.
  intros Hperm.
  set (saved := filter (fun kv => live_at (UnixNano (clock w (ticks w))) kv.2)
                  (items (cache c))).
  assert (Hsave : wp saveFile (c, w) (fun r s' =>
    r = None /\ s'.1 = c
    /\ files s'.2 !! filePath c = Some (Snapshot (json_members saved))
    /\ (exists_path (fileDir c) w = false -> fileDir c ∈ dirs s'.2))).
  { destruct Hperm as (Hstat & Hmk & Hcr & Henc).
    unfold saveFile, cache_Items. wp_run. rewrite Hstat.
    destruct (exists_path (fileDir c) w) eqn:Hex; wp_run.
    - rewrite Hcr. wp_run. rewrite Henc. wp_run. cbn.
      split; [done|]. split; [apply set_cache_id|]. split; [apply lookup_insert_eq|done].
    - cbn. wp_run. rewrite Hmk. wp_run. rewrite Hcr. wp_run. rewrite Henc. wp_run. cbn.
      split; [done|]. split; [apply set_cache_id|]. split; [apply lookup_insert_eq|].
      intros _. set_solver. }
  destruct Hsave as (r & [c' w1] & Hrun & -> & Hc & Hfile & Hdir). cbn in Hc, Hfile, Hdir.
  subst c'. exists w1. split; [done|]. split; [done|].
  intros c0 w2 Hpath Hsame Hfn Hempty Hstat Hopen Hdec Hmono.
  rewrite Hfile in Hsame. rewrite <- Hpath in Hsame, Hstat, Hopen.
  destruct (loadFile_snapshot_spec fn (json_members saved) c0 w2 Hsame Hstat Hopen Hdec
              Hfn Hempty)
    as (r & [c0' w2'] & Hload & -> & Hclean & _ & _ & Hloads & Hnone).
  cbn in Hclean, Hloads, Hnone. exists c0', w2'. split; [done|]. split.
  { unfold dirty. lia. }
  unfold reparsed in Hloads, Hnone. split.
  - intros k' Hno. apply Hnone. rewrite lookup_fmap.
    replace (json_members saved !! k') with (@None (@Item Obj)); [done|].
    symmetry. apply json_members_lookup_None. intros k Hk.
    destruct (saved !! k) as [it|] eqn:Hin; [|done].
    apply map_lookup_filter_Some in Hin as [Hin Hlive]. by destruct (Hno k it).
  - intros k it obj Hk Hlive Halone Hobj Hend.
    assert (Hin : json_members saved !! json_key k = Some it).
    { apply json_members_lookup_alone; [by apply map_lookup_filter_Some|].
      intros k2 [it2 Hin2] Heq. apply map_lookup_filter_Some in Hin2 as [Hin2 Hlive2].
      by apply (Halone k2 it2). }
    specialize (Hloads (json_key k) (mkItem (json_reparse (Object it)) (Expiration it))).
    rewrite lookup_fmap, Hin in Hloads. specialize (Hloads eq_refl).
    destruct (loaded_as_live _ _ _ _ _ _ obj Hmono Hloads Hobj Hend) as (i & _ & ->).
    by exists i.
Qed.

(** *** The remote copy *)

Lemma loaded_as_clock fn w w' lo hi v r :
  clock w' = clock w -> loaded_as fn w' lo hi v r -> loaded_as fn w lo hi v r.
Proof. unfold loaded_as. by intros ->. Qed.

(** [downloadCloudCache] when nothing fails and the remote object is
    there: the local file is the remote object afterwards. *)
Lemma downloadCloudCache_fetches ct c w :
  is_Some (CloudClient (StoreConfig c)) ->
  exists_path (filePath c) w = false ->
  objects w !! (Bucket (StoreConfig c), fileBase c) = Some ct ->
  (forall call, denied w call = false) ->
  wp downloadCloudCache (c, w) (fun r s' =>
    r = None /\ s'.1 = c
    /\ files s'.2 = <[filePath c := ct]> (files w)
    /\ fileDir c ∈ dirs s'.2
    /\ clock s'.2 = clock w /\ ticks s'.2 = ticks w /\ denied s'.2 = denied w
    /\ objects s'.2 = objects w
    /\ DownloadFile ∈ trace s'.2).
Proof.
  intros [cl Hcl] Hno Hobj Hden.
  unfold downloadCloudCache. wp_run. rewrite Hcl. wp_run.
  rewrite !Hden, Hno. wp_run. rewrite !Hden. wp_run. rewrite !Hden. wp_run.
  rewrite !Hden. wp_run. cbn. rewrite Hobj, !Hden. wp_run. cbn.
  split; [done|]. split; [done|]. split; [by rewrite insert_insert_eq|].
  split; [set_solver|]. repeat split; try done. set_solver.
Qed.

(** X10: Recovery from the remote copy: with a remote backend, no local file
    and the remote object holding a snapshot, nothing failing, [loadFile]
    downloads the object into the local file and loads it: an entry that
    is still unexpired when the load ends and that the conversion function
    accepts is in the store, converted, with five hours to live; a key the
    snapshot does not hold is not. *)
Theorem loadFile_recovers_from_the_remote_copy fn m c w :
  is_Some (CloudClient (StoreConfig c)) ->
  exists_path (filePath c) w = false ->
  objects w !! (Bucket (StoreConfig c), fileBase c) = Some (Snapshot m) ->
  (forall call, denied w call = false) ->
  monotone_clock w ->
  MarshalFn (cfg c) = Some fn ->
  items (cache c) = ∅ ->
  exists c' w',
    loadFile json_reparse (c, w) = Some (None, (c', w'))
    /\ files w' !! filePath c = Some (Snapshot m)
    /\ DownloadFile ∈ trace w'
    /\ ~ dirty c'
    /\ (forall k, m !! k = None -> items (cache c') !! k = None)
    /\ forall k it obj,
         m !! k = Some it ->
         fn (json_reparse (Object it)) = Ok obj ->
         Expiration it = 0 \/ ~ Expiration it < UnixNano (clock w (pred (ticks w'))) ->
         exists i,
           items (cache c') !! k = Some (mkItem obj (UnixNano (clock w i + 5 * Hour))).
Proof.
  intros Hcl Hno Hobj Hden Hmono Hfn Hempty.
  assert (Hwp : wp (loadFile json_reparse) (c, w) (fun r s' =>
    r = None
    /\ files s'.2 !! filePath c = Some (Snapshot m)
    /\ DownloadFile ∈ trace s'.2
    /\ loadedAt s'.1 = updatedAt s'.1
    /\ (forall k v, reparsed json_reparse m !! k = Some v ->
          loaded_as fn w (ticks w) (pred (ticks s'.2)) v (items (cache s'.1) !! k))
    /\ (forall k, reparsed json_reparse m !! k = None ->
          items (cache s'.1) !! k = None))).
  { unfold loadFile. wp_run. rewrite Hden, Hno. destruct Hcl as [cl Hcl].
    rewrite Hcl. wp_seq. wp_seq.
    eapply wp_mono.
    { apply (downloadCloudCache_fetches (Snapshot m)); done. }
    intros r [c1 w1] (-> & Hc & Hf & Hd & Hck & Htk & Hdn & _ & Htr).
    cbn in Hc, Hf, Hd, Hck, Htk, Hdn, Htr. subst c1. wp_run.
    assert (Hfile : files w1 !! filePath c = Some (Snapshot m)).
    { rewrite Hf. apply lookup_insert_eq. }
    assert (Hex : exists_path (filePath c) w1 = true).
    { unfold exists_path. rewrite bool_decide_true; [done|]. by rewrite Hfile. }
    rewrite Hdn, Hden, Hex. wp_seq.
    eapply wp_mono.
    { apply (load_snapshot_spec fn _ m); try done. cbn. by rewrite Hdn, Hden. }
    intros r [c2 w2] (-> & _ & _ & Hclean & n & Hn & Hw2 & _ & Hloads & Hnone).
    cbn in Hclean, Hn, Hw2, Hloads, Hnone. subst w2. wp_run. cbn.
    split; [done|]. split; [done|]. split; [set_solver|]. split; [done|].
    split; [|done]. intros k v Hkv. specialize (Hloads k v Hkv).
    rewrite Htk in Hloads. eapply loaded_as_clock; [|exact Hloads]. done. }
  destruct Hwp as (r & [c' w'] & Hrun & -> & Hfile & Htr & Hclean & Hloads & Hnone).
  cbn in Hfile, Htr, Hclean, Hloads, Hnone.
  exists c', w'. split; [done|]. split; [done|]. split; [done|]. split.
  { unfold dirty. lia. }
  unfold reparsed in Hloads, Hnone. split.
  - intros k Hk. apply Hnone. by rewrite lookup_fmap, Hk.
  - intros k it obj Hk Hobj' Hend.
    specialize (Hloads k (mkItem (json_reparse (Object it)) (Expiration it))).
    rewrite lookup_fmap, Hk in Hloads. specialize (Hloads eq_refl).
    destruct (loaded_as_live _ _ _ _ _ _ obj Hmono Hloads Hobj' Hend) as (i & _ & ->).
    by exists i.
Qed.

(** X11: A download that fails, the remote object being missing or the
    transfer failing, leaves behind the local file that [os.Create] made
    for it: empty, so that it does not decode.  [loadFile] returns the
    error and the service is as it was. *)
Theorem failed_download_leaves_an_empty_file c w :
  is_Some (CloudClient (StoreConfig c)) ->
  exists_path (filePath c) w = false ->
  denied w (OsStat (filePath c)) = false ->
  denied w (OsMkdirAll (fileDir c)) = false ->
  denied w (OsCreate (filePath c)) = false ->
  denied w NewCloudFileRequest = false ->
  objects w !! (Bucket (StoreConfig c), fileBase c) = None
    \/ denied w DownloadFile = true ->
  exists w',
    loadFile json_reparse (c, w)
    = Some (Some (WrapError (CallError DownloadFile)
                    "error getting cache file from storage"), (c, w'))
    /\ files w' !! filePath c = Some Unparsable
    /\ objects w' = objects w
    /\ ticks w' = ticks w.
Proof.
  intros [cl Hcl] Hno Hstat Hmk Hcr Hreq Hfail.
  assert (Hwp : wp (loadFile json_reparse) (c, w) (fun r s' =>
    r = Some (WrapError (CallError DownloadFile) "error getting cache file from storage")
    /\ s'.1 = c
    /\ files s'.2 !! filePath c = Some Unparsable
    /\ objects s'.2 = objects w /\ ticks s'.2 = ticks w)).
  { unfold loadFile, downloadCloudCache. wp_run. rewrite Hstat, Hno, Hcl. wp_run.
    rewrite Hcl. wp_run. rewrite Hstat, exists_path_set_trace, Hno. wp_run.
    rewrite Hmk. wp_run.
    rewrite Hcr. wp_run. rewrite Hreq. wp_run. cbn.
    destruct (objects w !! (Bucket (StoreConfig c), fileBase c)) as [ct|] eqn:Hobj.
    - destruct Hfail as [?|Hdl]; [done|]. rewrite Hdl. wp_run.
      repeat split; try done. apply lookup_insert_eq.
    - wp_run. repeat split; try done. apply lookup_insert_eq. }
  destruct Hwp as (r & [c' w'] & Hrun & -> & Hc & Hrest). cbn in Hc, Hrest. subst c'.
  by exists w'.
Qed.

(** [saveFile], not hindered, ends with the creation and the encoding. *)
Lemma saveFile_permitted_trace c w :
  save_permitted c w ->
  wp saveFile (c, w) (fun r s' =>
    r = None /\ s'.1 = c
    /\ files s'.2 !! filePath c
       = Some (Snapshot (json_members
                           (filter (fun kv => live_at (UnixNano (clock w (ticks w))) kv.2)
                              (items (cache c)))))
    /\ denied s'.2 = denied w /\ objects s'.2 = objects w
    /\ exists before, trace s'.2 = JsonEncode :: OsCreate (filePath c) :: before).
Proof.
  intros (Hstat & Hmk & Hcr & Henc).
  unfold saveFile, cache_Items. wp_run. rewrite Hstat.
  destruct (exists_path (fileDir c) w) eqn:Hex; wp_run.
  - rewrite Hcr. wp_run. rewrite Henc. wp_run. cbn.
    split; [done|]. split; [apply set_cache_id|]. split; [apply lookup_insert_eq|].
    repeat split; try done. by eexists.
  - cbn. wp_run. rewrite Hmk. wp_run. rewrite Hcr. wp_run. rewrite Henc. wp_run. cbn.
    split; [done|]. split; [apply set_cache_id|]. split; [apply lookup_insert_eq|].
    repeat split; try done. by eexists.
Qed.

(** [uploadCloudCache], not hindered: the remote object is the local
    file. *)
Lemma uploadCloudCache_spec ct c w :
  is_Some (CloudClient (StoreConfig c)) ->
  files w !! filePath c = Some ct ->
  denied w (OsStat (filePath c)) = false ->
  denied w (OsOpen (filePath c)) = false ->
  denied w NewCloudFileRequest = false ->
  denied w UploadFile = false ->
  wp uploadCloudCache (c, w) (fun r s' =>
    r = None /\ s'.1 = c
    /\ files s'.2 = files w
    /\ objects s'.2 = <[(Bucket (StoreConfig c), fileBase c) := ct]> (objects w)
    /\ denied s'.2 = denied w
    /\ trace s'.2
       = UploadFile :: NewCloudFileRequest :: OsOpen (filePath c)
           :: OsStat (filePath c) :: trace w).
Proof.
  intros [cl Hcl] Hfile Hstat Hopen Hreq Hup.
  assert (Hex : exists_path (filePath c) w = true).
  { unfold exists_path. rewrite bool_decide_true; [done|]. by rewrite Hfile. }
  unfold uploadCloudCache. wp_run. rewrite Hcl. wp_run. rewrite Hstat, Hex. wp_run.
  rewrite Hopen, exists_path_set_trace, Hex. wp_run. rewrite Hreq. wp_run. cbn.
  rewrite Hfile, Hup. wp_run. done.
Qed.

(** X12: [Clear] of a dirty service with a remote backend, the save and the
    upload not being hindered: the snapshot of the live entries is in the
    local file and in the remote object, the store is flushed and the
    client closed, in that order.  What [Clear] returns is what closing
    the client returned, so that an error there is reported after
    everything has been saved. *)
Theorem Clear_uploads_the_snapshot c w :
  dirty c ->
  is_Some (CloudClient (StoreConfig c)) ->
  save_permitted c w ->
  denied w (OsStat (filePath c)) = false ->
  denied w (OsOpen (filePath c)) = false ->
  denied w NewCloudFileRequest = false ->
  denied w UploadFile = false ->
  exists w' before,
    Clear (c, w)
    = Some ((if denied w CloseClient then Some (CallError CloseClient) else None),
            (flushed c, w'))
    /\ files w' !! filePath c
       = Some (Snapshot (json_members
                           (filter (fun kv => live_at (UnixNano (clock w (ticks w))) kv.2)
                              (items (cache c)))))
    /\ objects w' !! (Bucket (StoreConfig c), fileBase c) = files w' !! filePath c
    /\ trace w'
       = CloseClient :: UploadFile :: NewCloudFileRequest :: OsOpen (filePath c)
           :: OsStat (filePath c) :: JsonEncode :: OsCreate (filePath c) :: before.
Proof.
  intros Hd Hclient Hperm Hstat Hopen Hreq Hup.
  set (saved := filter (fun kv => live_at (UnixNano (clock w (ticks w))) kv.2)
                  (items (cache c))).
  assert (Hwp : wp Clear (c, w) (fun r s' =>
    r = (if denied w CloseClient then Some (CallError CloseClient) else None)
    /\ s'.1 = flushed c
    /\ files s'.2 !! filePath c = Some (Snapshot (json_members saved))
    /\ objects s'.2 !! (Bucket (StoreConfig c), fileBase c) = Some (Snapshot (json_members saved))
    /\ exists before,
         trace s'.2
         = CloseClient :: UploadFile :: NewCloudFileRequest :: OsOpen (filePath c)
             :: OsStat (filePath c) :: JsonEncode :: OsCreate (filePath c) :: before)).
  { unfold Clear, clear, Updated, save_and_upload.
    do 7 wp_step. rewrite bool_decide_true by done. do 3 wp_step.
    eapply wp_mono; [by apply saveFile_permitted_trace|].
    intros r [c1 w1] (-> & Hc & Hf & Hdn & Hob & before & Htr).
    cbn in Hc, Hf, Hdn, Hob, Htr. subst c1.
    destruct Hclient as [cl Hcl]. rewrite Hcl.
    eapply wp_mono.
    { apply (uploadCloudCache_spec (Snapshot (json_members saved))); rewrite ?Hdn; done. }
    intros r [c2 w2] (-> & Hc & Hf2 & Hob2 & Hdn2 & Htr2).
    cbn in Hc, Hf2, Hob2, Hdn2, Htr2. subst c2.
    unfold cache_Flush. wp_run. rewrite Hdn2, Hdn.
    destruct (denied w CloseClient); cbn.
    all: split; [done|]; split; [done|]; split; [by rewrite Hf2|].
    all: split; [by rewrite Hob2, lookup_insert_eq|].
    all: exists before; by rewrite Htr2, Htr. }
  destruct Hwp as (r & [c' w'] & Hrun & -> & Hc & Hf & Ho & before & Htr).
  cbn in Hc, Hf, Ho, Htr. subst c'. exists w', before.
  split; [done|]. split; [done|]. split; [by rewrite Ho, Hf|done].
Qed.

(** *** Purging and clearing *)

(** X14: [ClearFile] when nothing fails.  Without a remote backend it stats
    and removes the local file and calls nothing else; a service
    constructed afterwards finds no file.  With a backend and a remote
    copy both copies are gone.  The service in memory is untouched in both
    cases. *)
Theorem ClearFile_removes_the_copies c w :
  is_Some (files w !! filePath c) ->
  denied w (OsStat (filePath c)) = false ->
  denied w (OsRemove (filePath c)) = false ->
  (CloudClient (StoreConfig c) = None ->
   ClearFile (c, w)
   = Some (None,
           (c, set_files (base.delete (filePath c) (files w))
                 (set_trace (OsRemove (filePath c) :: OsStat (filePath c) :: trace w) w)))
   /\ (filePath c ∉ dirs w ->
       exists e w',
         loadFile json_reparse
           (c, set_files (base.delete (filePath c) (files w))
                 (set_trace (OsRemove (filePath c) :: OsStat (filePath c) :: trace w) w))
         = Some (Some e, (c, w'))))
  /\ (is_Some (CloudClient (StoreConfig c)) ->
      is_Some (objects w !! (Bucket (StoreConfig c), fileBase c)) ->
      denied w NewCloudFileRequest = false ->
      denied w DeleteObject = false ->
      exists w',
        ClearFile (c, w) = Some (None, (c, w'))
        /\ files w' !! filePath c = None
        /\ objects w' !! (Bucket (StoreConfig c), fileBase c) = None).
Proof.
  intros Hfile Hstat Hrm.
  assert (Hex : exists_path (filePath c) w = true).
  { unfold exists_path. rewrite bool_decide_true by done. done. }
  split.
  - intros Hcl.
    assert (Hwp : wp ClearFile (c, w) (fun r s' =>
      r = None
      /\ s' = (c, set_files (base.delete (filePath c) (files w))
                    (set_trace (OsRemove (filePath c) :: OsStat (filePath c) :: trace w)
                       w)))).
    { unfold ClearFile. wp_run. rewrite Hstat, Hex, Hcl. wp_run.
      rewrite Hrm. rewrite bool_decide_true by done. wp_run. done. }
    destruct Hwp as (r & s' & Hrun & -> & ->). split; [done|].
    intros Hnodir. eexists _, _. apply loadFile_no_file; [done|done|].
    unfold exists_path. cbn. rewrite lookup_delete_eq.
    rewrite bool_decide_false by (by intros [? ?]).
    by rewrite bool_decide_false.
  - intros [cl Hcl] [ct Hobj] Hreq Hdel.
    assert (Hwp : wp ClearFile (c, w) (fun r s' =>
      r = None /\ s'.1 = c
      /\ files s'.2 !! filePath c = None
      /\ objects s'.2 !! (Bucket (StoreConfig c), fileBase c) = None)).
    { unfold ClearFile, deleteCloudCache. wp_run. rewrite Hstat, Hex, Hcl. wp_run.
      rewrite Hcl. wp_run. rewrite Hstat, exists_path_set_trace, Hex. wp_run.
      rewrite Hreq. wp_run. cbn. rewrite Hobj, Hdel. wp_run.
      rewrite Hrm. rewrite bool_decide_true by done. wp_run. cbn.
      split; [done|]. split; [done|]. split; apply lookup_delete_eq. }
    destruct Hwp as (r & [c' w'] & Hrun & -> & Hc & Hf & Ho). cbn in Hc, Hf, Ho. subst c'.
    by exists w'.
Qed.

Lemma clear_not_dirty c w :
  ~ dirty c ->
  match CloudClient (StoreConfig c) with
  | None => Clear (c, w) = Some (None, (flushed c, w))
  | Some _ =>
      Clear (c, w)
      = Some ((if denied w CloseClient then Some (CallError CloseClient) else None),
              (flushed c, set_trace (CloseClient :: trace w) w))
  end.
Proof.
  intros Hclean.
  assert (Hwp : wp Clear (c, w) (fun r s' =>
    match CloudClient (StoreConfig c) with
    | None => r = None /\ s' = (flushed c, w)
    | Some _ =>
        r = (if denied w CloseClient then Some (CallError CloseClient) else None)
        /\ s' = (flushed c, set_trace (CloseClient :: trace w) w)
    end)).
  { unfold Clear, clear, Updated, cache_Flush. wp_run.
    rewrite bool_decide_false by done. wp_run.
    destruct (CloudClient (StoreConfig c)); wp_run; [|done].
    destruct (denied w CloseClient); done. }
  destruct Hwp as (r & s' & Hrun & Hpost).
  destruct (CloudClient (StoreConfig c)); by destruct Hpost as [-> ->].
Qed.

(** X15: [Clear] of a service that is not dirty saves nothing: the store is
    flushed, and the only external call is the closing of the remote
    client when there is one.  No file is written and no clock read. *)
Theorem Clear_of_a_clean_service_saves_nothing c w :
  ~ dirty c ->
  match CloudClient (StoreConfig c) with
  | None => Clear (c, w) = Some (None, (flushed c, w))
  | Some _ =>
      Clear (c, w)
      = Some ((if denied w CloseClient then Some (CallError CloseClient) else None),
              (flushed c, set_trace (CloseClient :: trace w) w))
  end.
Proof. apply clear_not_dirty. Qed.

(** X16: The timestamps count seconds.  A [Set] that succeeds within the
    second in which the service was loaded leaves [updatedAt] equal to
    [loadedAt]: [Updated] answers false, and [Clear] then flushes the new
    entry without writing a snapshot. *)
Theorem Set_in_the_second_of_the_load_is_not_saved k (v : Obj) d c w :
  items (cache c) !! k = None ->
  0 < d ->
  loadedAt c = Unix (clock w (S (ticks w))) ->
  CloudClient (StoreConfig c) = None ->
  exists c1 w1,
    Set_ k v d (c, w) = Some (None, (c1, w1))
    /\ is_Some (items (cache c1) !! k)
    /\ Updated (c1, w1) = Some (false, (c1, w1))
    /\ Clear (c1, w1) = Some (None, (flushed c1, w1))
    /\ files w1 = files w.
Proof.
  intros Hk Hd Hsec Hcl.
  destruct (Set_absent k v d c w Hk Hd)
    as (r & [c1 w1] & Hset & -> & Hw1 & Hsame & Hupd & Hitems).
  cbn in Hw1, Hsame, Hupd, Hitems. destruct Hsame as (_ & Hl & _ & Hsc & _).
  assert (Hclean : ~ dirty c1) by (unfold dirty; lia).
  exists c1, w1. split; [done|]. split; [by rewrite Hitems, lookup_insert_eq|].
  split; [by rewrite Updated_run, bool_decide_false|]. split; [|by subst w1].
  pose proof (clear_not_dirty c1 w1 Hclean) as Hclear.
  by rewrite Hsc, Hcl in Hclear.
Qed.

(** X17: An entry outlives its duration only until the next sweep: after
    [Set] with a duration and a [DeleteExpired] that reads the clock past
    the expiration, the key is gone; the entries that are live at that
    reading are kept, so that a store whose other entries are all live is
    back to what it was before the [Set]. *)
Theorem entry_is_swept_after_its_duration k (v : Obj) d c w w2 :
  items (cache c) !! k = None ->
  0 < d ->
  0 < UnixNano (clock w (ticks w) + d) ->
  UnixNano (clock w (ticks w) + d) < UnixNano (clock w2 (ticks w2)) ->
  exists c1 w1 c2 w3,
    Set_ k v d (c, w) = Some (None, (c1, w1))
    /\ DeleteExpired (c1, w2) = Some (tt, (c2, w3))
    /\ items (cache c2) !! k = None
    /\ (forall k' it',
          items (cache c) !! k' = Some it' ->
          live_at (UnixNano (clock w2 (ticks w2))) it' ->
          items (cache c2) !! k' = Some it')
    /\ ((forall k' it',
           items (cache c) !! k' = Some it' ->
           live_at (UnixNano (clock w2 (ticks w2))) it') ->
        items (cache c2) = items (cache c)
        /\ ItemCount (c2, w3) = Some (size (items (cache c)), (c2, w3))).
Proof.
  intros Hk Hd Hpos Hexp.
  destruct (Set_absent k v d c w Hk Hd)
    as (r & [c1 w1] & Hset & -> & _ & _ & _ & Hitems). cbn in Hitems.
  destruct (DeleteExpired_spec c1 w2) as ([] & [c2 w3] & Hsweep & Hitems2 & _).
  cbn in Hitems2. rewrite Hitems in Hitems2.
  assert (Hgone : items (cache c2) !! k = None).
  { rewrite Hitems2. apply map_lookup_filter_None. right.
    intros it'. rewrite lookup_insert_eq. intros [= <-] Hlive. by apply Hlive. }
  assert (Hkept : forall k' it',
    items (cache c) !! k' = Some it' ->
    live_at (UnixNano (clock w2 (ticks w2))) it' ->
    items (cache c2) !! k' = Some it').
  { intros k' it' Hin Hlive. rewrite Hitems2. apply map_lookup_filter_Some.
    split; [|done]. rewrite lookup_insert_ne; [done|]. intros <-. congruence. }
  exists c1, w1, c2, w3. split; [done|]. split; [done|]. split; [done|].
  split; [done|]. intros Hall.
  assert (Heq : items (cache c2) = items (cache c)).
  { apply map_eq. intros k'. destruct (items (cache c) !! k') as [it'|] eqn:Hin.
    - apply Hkept; [done|]. by eapply Hall.
    - destruct (decide (k' = k)) as [->|Hne]; [done|].
      rewrite Hitems2. apply map_lookup_filter_None. left.
      by rewrite lookup_insert_ne. }
  split; [done|]. by rewrite ItemCount_run, Heq.
Qed.

(** X13: [Clear] of a dirty service with a remote backend whose upload fails
    after the save went through: [Clear] returns the error of the upload,
    the snapshot is in the local file, the remote objects are as they
    were, and the service, its entries included, is untouched; the upload
    is the last call made, so the client is not closed. *)
Theorem Clear_keeps_the_local_snapshot_when_the_upload_fails c w :
  dirty c ->
  is_Some (CloudClient (StoreConfig c)) ->
  save_permitted c w ->
  denied w (OsStat (filePath c)) = false ->
  denied w (OsOpen (filePath c)) = false ->
  denied w NewCloudFileRequest = false ->
  denied w UploadFile = true ->
  exists w' before,
    Clear (c, w) = Some (Some (CallError UploadFile), (c, w'))
    /\ files w' !! filePath c
       = Some (Snapshot (json_members
                           (filter (fun kv => live_at (UnixNano (clock w (ticks w))) kv.2)
                              (items (cache c)))))
    /\ objects w' = objects w
    /\ trace w' = UploadFile :: before.
Proof.
  intros Hd [cl Hcl] Hperm Hstat Hopen Hreq Hup.
  set (saved := filter (fun kv => live_at (UnixNano (clock w (ticks w))) kv.2)
                  (items (cache c))).
  assert (Hwp : wp Clear (c, w) (fun r s' =>
    r = Some (CallError UploadFile) /\ s'.1 = c
    /\ files s'.2 !! filePath c = Some (Snapshot (json_members saved))
    /\ objects s'.2 = objects w
    /\ exists before, trace s'.2 = UploadFile :: before)).
  { unfold Clear, clear, Updated, save_and_upload.
    do 7 wp_step. rewrite bool_decide_true by done. do 3 wp_step.
    eapply wp_mono; [by apply saveFile_permitted_trace|].
    intros r [c1 w1] (-> & Hc & Hf & Hdn & Hob & before & Htr).
    cbn in Hc, Hf, Hdn, Hob, Htr. subst c1. rewrite Hcl.
    assert (Hex : exists_path (filePath c) w1 = true).
    { unfold exists_path. rewrite bool_decide_true; [done|]. by rewrite Hf. }
    unfold uploadCloudCache. wp_run. rewrite Hcl. wp_run.
    rewrite Hdn, Hstat, Hex. wp_run.
    rewrite Hdn, Hopen, exists_path_set_trace, Hex. wp_run.
    rewrite Hdn, Hreq. wp_run. cbn. rewrite Hf, Hdn, Hup. wp_run. cbn.
    repeat split; try done. by eexists. }
  destruct Hwp as (r & [c' w'] & Hrun & -> & Hc & Hf & Ho & before & Htr).
  cbn in Hc, Hf, Ho, Htr. subst c'. by exists w', before.
Qed.

End Properties.

(** * The properties at the sample instances *)

Lemma Sample_clock_steady fs deny : steady_clock (Sample.world fs deny).
Proof.
  split; cbn; unfold Sample.clock, Hour, Minute, Second.
  - intros i j Hij. lia.
  - intros i. change (2 ^ 63) with 9223372036854775808. lia.
Qed.

Lemma Sample_clock_monotone fs deny : monotone_clock (Sample.world fs deny).
Proof. apply steady_clock_monotone, Sample_clock_steady. Qed.

(** C4 at a service that holds [test]. *)
Lemma Set_on_live_key_is_rejected_witness :
  exists w',
    Set_ "test" "Jane" (5 * Minute) (Sample.dirty_service, Sample.world ∅ Sample.all_well)
      = Some (Some (WrapError (ItemExists "test") ERROR_SET_CACHE),
              (Sample.dirty_service, w'))
    /\ (Object <$> items (cache Sample.dirty_service) !! "test") = Some "John"
    /\ files w' = files (Sample.world ∅ Sample.all_well)
    /\ objects w' = objects (Sample.world ∅ Sample.all_well)
    /\ Updated (Sample.dirty_service, w')
       = Some (bool_decide (dirty Sample.dirty_service), (Sample.dirty_service, w')).
Proof.
  apply (Set_on_live_key_is_rejected "test" "John" "Jane" (5 * Minute)
           Sample.dirty_service (Sample.world ∅ Sample.all_well) Sample.john).
  - vm_compute. reflexivity.
  - reflexivity.
  - unfold live_at. cbn. lia.
Defined.

(** C1 as stated fails: with [os.Create] failing, [Clear] of a dirty
    service returns the error and the entry is still in the store. *)
Lemma Clear_keeps_the_entries_when_the_save_fails :
  ~ (forall (c : @cacheService string) w r c' w',
       Clear (c, w) = Some (r, (c', w')) -> items (cache c') = ∅).
Proof.
  intros Hclaim.
  pose (w := Sample.world ∅ Sample.no_create).
  assert (Hrun : Clear (Sample.dirty_service, w)
                 = Some (Some (WrapError (CallError (OsCreate Sample.path))
                                 ERROR_GETTING_CACHE_FILE),
                         (Sample.dirty_service,
                          set_trace [OsCreate Sample.path; OsStat "data"] w)))
    by (vm_compute; reflexivity).
  apply Hclaim in Hrun.
  assert (Hin : items (cache Sample.dirty_service) !! "test" = Some Sample.john)
    by (vm_compute; reflexivity).
  rewrite Hrun in Hin. discriminate.
Qed.

(** C2 at a dirty service with one entry: the first [Clear] succeeds,
    the second one writes the empty snapshot. *)
Lemma Clear_keeps_the_timestamps_witness :
  exists r2 c2 w3,
    Clear (flushed Sample.dirty_service, Sample.world ∅ Sample.all_well) = Some (r2, (c2, w3))
    /\ files w3 !! filePath (flushed Sample.dirty_service) = Some (Snapshot ∅).
Proof.
  destruct (Clear_keeps_the_timestamps Sample.dirty_service (Sample.world ∅ Sample.all_well))
    as (r & c' & w' & Hrun & _ & _ & Hnext).
  assert (Hc : exists w1, Clear (Sample.dirty_service, Sample.world ∅ Sample.all_well)
                          = Some (None, (flushed Sample.dirty_service, w1)))
    by (eexists; vm_compute; reflexivity).
  destruct Hc as [w1 Hc]. rewrite Hc in Hrun. injection Hrun as <- <- <-.
  destruct (Hnext eq_refl eq_refl) as (_ & _ & Hagain).
  apply (Hagain (Sample.world ∅ Sample.all_well)). repeat split; reflexivity.
Defined.

(** C8 where there is no file, and where there is one and the remote
    copy is missing. *)
Lemma ClearFile_remote_first_then_local_witness :
  (exists e w',
     ClearFile (Sample.dirty_service, Sample.world ∅ Sample.all_well)
       = Some (Some e, (Sample.dirty_service, w'))
     /\ files w' = files (Sample.world ∅ Sample.all_well)
     /\ objects w' = objects (Sample.world ∅ Sample.all_well)
     /\ trace w' = OsStat (filePath Sample.dirty_service) :: trace (Sample.world ∅ Sample.all_well))
  /\ (exists cloudErr w1 w',
       deleteCloudCache
         (Sample.dirty_backed_service,
          set_trace (OsStat (filePath Sample.dirty_backed_service)
                       :: trace (Sample.world {[Sample.path := Snapshot ∅]} Sample.all_well))
            (Sample.world {[Sample.path := Snapshot ∅]} Sample.all_well))
         = Some (cloudErr, (Sample.dirty_backed_service, w1))
       /\ ClearFile (Sample.dirty_backed_service, Sample.world {[Sample.path := Snapshot ∅]} Sample.all_well)
          = Some (cloudErr, (Sample.dirty_backed_service, w'))
       /\ files w' = base.delete (filePath Sample.dirty_backed_service)
                       (files (Sample.world {[Sample.path := Snapshot ∅]} Sample.all_well))
       /\ trace w' = OsRemove (filePath Sample.dirty_backed_service) :: trace w1
       /\ (denied (Sample.world {[Sample.path := Snapshot ∅]} Sample.all_well) NewCloudFileRequest = false ->
           trace w1 = DeleteObject :: NewCloudFileRequest
                        :: OsStat (filePath Sample.dirty_backed_service)
                        :: OsStat (filePath Sample.dirty_backed_service)
                        :: trace (Sample.world {[Sample.path := Snapshot ∅]} Sample.all_well))).
Proof.
  split.
  - apply (proj1 (ClearFile_remote_first_then_local Sample.dirty_service
                    (Sample.world ∅ Sample.all_well))).
    vm_compute. reflexivity.
  - apply (proj2 (ClearFile_remote_first_then_local Sample.dirty_backed_service
                    (Sample.world {[Sample.path := Snapshot ∅]} Sample.all_well))).
    + exists (Snapshot ∅). vm_compute. reflexivity.
    + reflexivity.
    + reflexivity.
    + exists Client. reflexivity.
Defined.

(** C10 where the remote copy is missing and [os.Remove] fails. *)
Lemma ClearFile_local_error_wins_witness :
  exists w',
    ClearFile (Sample.dirty_backed_service,
               Sample.world {[Sample.path := Snapshot ∅]} Sample.no_remove)
      = Some (Some (WrapError (CallError (OsRemove (filePath Sample.dirty_backed_service)))
                      ("error removing file " +:+ filePath Sample.dirty_backed_service)),
              (Sample.dirty_backed_service, w'))
    /\ WrapError (CallError (OsRemove (filePath Sample.dirty_backed_service)))
         ("error removing file " +:+ filePath Sample.dirty_backed_service)
       <> CallError DeleteObject
    /\ files w' = files (Sample.world {[Sample.path := Snapshot ∅]} Sample.no_remove).
Proof.
  apply (ClearFile_local_error_wins Sample.dirty_backed_service
           (Sample.world {[Sample.path := Snapshot ∅]} Sample.no_remove)
           (CallError DeleteObject)
           (set_trace [DeleteObject; NewCloudFileRequest; OsStat Sample.path;
                       OsStat Sample.path]
              (Sample.world {[Sample.path := Snapshot ∅]} Sample.no_remove))).
  - exists (Snapshot ∅). vm_compute. reflexivity.
  - reflexivity.
  - exists Client. reflexivity.
  - vm_compute. reflexivity.
  - reflexivity.
Defined.

(** C5 at a snapshot with one entry that never expires. *)
Lemma load_keeps_converted_entries_for_five_hours_witness :
  exists c' w' i,
    load (fun o => o) Sample.path
      (Sample.fresh Sample.accept,
       Sample.world {[Sample.path := Snapshot {["test" := Sample.john]}]} Sample.all_well)
      = Some (None, (c', w'))
    /\ items (cache c') !! "test"
       = Some (mkItem "John" (UnixNano (Sample.clock i + 5 * Hour))).
Proof.
  destruct (load_keeps_converted_entries_for_five_hours (fun o => o) Sample.accept
              Sample.path {["test" := Sample.john]} (Sample.fresh Sample.accept)
              (Sample.world {[Sample.path := Snapshot {["test" := Sample.john]}]}
                 Sample.all_well)
              "test" Sample.john)
    as (c' & w' & Hrun & _ & _ & Hlive).
  - vm_compute. reflexivity.
  - reflexivity.
  - reflexivity.
  - reflexivity.
  - apply Sample_clock_monotone.
  - vm_compute. reflexivity.
  - destruct (Hlive "John" eq_refl (or_introl eq_refl)) as (i & _ & Hk).
    exists c', w', i. split; [exact Hrun | exact Hk].
Defined.

(** C5 as stated fails: an entry that never expires is not put in the
    store when its conversion fails. *)
Lemma load_leaves_out_an_unexpired_entry :
  ~ (forall (fn : string -> result string) p m (c : @cacheService string) w k v c' w',
       files w !! p = Some (Snapshot m) ->
       denied w JsonDecode = false ->
       MarshalFn (cfg c) = Some fn ->
       items (cache c) = ∅ ->
       monotone_clock w ->
       reparsed (fun o => o) m !! k = Some v ->
       load (fun o => o) p (c, w) = Some (None, (c', w')) ->
       Expiration v = 0 ->
       is_Some (items (cache c') !! k)).
Proof.
  intros Hclaim.
  pose (w := Sample.world {[Sample.path := Snapshot {["test" := Sample.john]}]}
               Sample.all_well).
  assert (Hrun : exists c' w',
            load (fun o => o) Sample.path (Sample.fresh Sample.refuse, w)
              = Some (None, (c', w'))
            /\ items (cache c') !! "test" = None).
  { do 2 eexists. split; vm_compute; reflexivity. }
  destruct Hrun as (c' & w' & Hrun & Hnone).
  destruct (Hclaim Sample.refuse Sample.path {["test" := Sample.john]}
              (Sample.fresh Sample.refuse) w "test" Sample.john c' w') as [it Hit].
  - vm_compute. reflexivity.
  - reflexivity.
  - reflexivity.
  - reflexivity.
  - apply Sample_clock_monotone.
  - vm_compute. reflexivity.
  - exact Hrun.
  - reflexivity.
  - rewrite Hnone in Hit. discriminate.
Qed.

(** C7 at a snapshot of two entries, one of them refused, and at a
    file that does not decode. *)
Lemma load_skips_failed_conversions_only_witness :
  (exists c' w' it,
     load (fun o => o) Sample.path
       (Sample.fresh Sample.picky,
        Sample.world
          {[Sample.path := Snapshot {["test" := Sample.john; "other" := Sample.jane]}]}
          Sample.all_well)
       = Some (None, (c', w'))
     /\ items (cache c') !! "test" = None
     /\ items (cache c') !! "other" = Some it
     /\ Object it = "Jane")
  /\ (exists e c' w',
       load (fun o => o) Sample.path
         (Sample.fresh Sample.picky,
          Sample.world {[Sample.path := Unparsable]} Sample.all_well)
         = Some (Some e, (c', w'))
       /\ items (cache c') = items (cache (Sample.fresh Sample.picky))).
Proof.
  split.
  - destruct (proj1 (load_skips_failed_conversions_only (fun o => o) Sample.picky
                       Sample.path (Sample.fresh Sample.picky)
                       (Sample.world
                          {[Sample.path :=
                              Snapshot {["test" := Sample.john; "other" := Sample.jane]}]}
                          Sample.all_well))
                {["test" := Sample.john; "other" := Sample.jane]} "test" Sample.john
                (NewAppError "not a cache value"))
      as (c' & w' & Hrun & Hnone & Hothers).
    + vm_compute. reflexivity.
    + reflexivity.
    + reflexivity.
    + reflexivity.
    + apply Sample_clock_monotone.
    + vm_compute. reflexivity.
    + reflexivity.
    + destruct (Hothers "other" Sample.jane "Jane") as (it & Hit & Hobj).
      * vm_compute. reflexivity.
      * reflexivity.
      * left. reflexivity.
      * exists c', w', it. repeat split; assumption.
  - apply (proj2 (load_skips_failed_conversions_only (fun o => o) Sample.picky
                    Sample.path (Sample.fresh Sample.picky)
                    (Sample.world {[Sample.path := Unparsable]} Sample.all_well))).
    left. intros m Hm. vm_compute in Hm. discriminate Hm.
Defined.

(** C9 over an empty data directory, without and with a remote
    backend. *)
Lemma constructors_return_a_clean_service_witness :
  (exists r c w',
     loadFile (fun o => o) (Sample.fresh Sample.accept, Sample.world ∅ Sample.all_well)
       = Some (r, (c, w'))
     /\ NewCacheService (fun o => o) "missing required" (Sample.config Sample.accept)
          (Some Logger) (Sample.world ∅ Sample.all_well)
        = Some (Ok c, w')
     /\ Updated (c, w') = Some (false, (c, w'))
     /\ is_Some r
     /\ ItemCount (c, w') = Some (0%nat, (c, w')))
  /\ (exists c w',
       NewWithCloudBackup (fun o => o) "missing required" (Sample.config Sample.accept)
         Sample.backend (Some Logger) (Sample.world ∅ Sample.all_well)
         = Some (Ok c, w')
       /\ is_Some (CloudClient (StoreConfig c))
       /\ Updated (c, w') = Some (false, (c, w'))).
Proof.
  destruct (constructors_return_a_clean_service (fun o => o) "missing required"
              (Sample.config Sample.accept) Logger Sample.accept
              (Sample.world ∅ Sample.all_well))
    as [(c0 & r & c & w' & Hnew & Hload & Hcons & Hupd & Hfresh) Hcloud].
  - discriminate.
  - reflexivity.
  - split.
    + assert (Hc0 : newCacheService "missing required" (Sample.config Sample.accept)
                      (Some Logger) = Ok (Sample.fresh Sample.accept)) by reflexivity.
      rewrite Hc0 in Hnew. injection Hnew as <-.
      destruct Hfresh as [Hr Hcount]; [vm_compute; reflexivity|].
      exists r, c, w'. repeat split; assumption.
    + apply (Hcloud Sample.backend).
      * discriminate.
      * left. exists Client. reflexivity.
Defined.




(** * The further properties at the sample instances *)

Lemma Set_then_Get_returns_the_value_witness :
  exists c1 w1 w3,
    Set_ "test" "John" (5 * Minute) (Sample.fresh Sample.accept, Sample.world ∅ Sample.all_well)
      = Some (None, (c1, w1))
    /\ ItemCount (c1, w1) = Some (1%nat, (c1, w1))
    /\ Get "test" (c1, Sample.world ∅ Sample.all_well)
       = Some ((Some "John", Some 1700000300000000000), (c1, w3)).
Proof.
  apply (Set_then_Get_returns_the_value "test" "John" (5 * Minute)
           (Sample.fresh Sample.accept) (Sample.world ∅ Sample.all_well)
           (Sample.world ∅ Sample.all_well)).
  - reflexivity.
  - reflexivity.
  - reflexivity.
  - intros H. vm_compute in H. discriminate H.
Defined.

Lemma Set_replaces_an_expired_entry_witness :
  exists c1 w1,
    Set_ "test" "John" (5 * Minute) (Sample.stale_service, Sample.world ∅ Sample.all_well)
      = Some (None, (c1, w1))
    /\ items (cache c1) !! "test"
       = Some (mkItem "John"
                 (UnixNano (clock (Sample.world ∅ Sample.all_well) 1 + 5 * Minute)))
    /\ (forall k', k' <> "test" ->
          items (cache c1) !! k' = items (cache Sample.stale_service) !! k')
    /\ ItemCount (c1, w1)
       = Some (size (items (cache Sample.stale_service)), (c1, w1))
    /\ updatedAt c1 = Unix (clock (Sample.world ∅ Sample.all_well) 2).
Proof.
  apply (Set_replaces_an_expired_entry "test" "John" (5 * Minute)
           Sample.stale_service (Sample.world ∅ Sample.all_well) Sample.old).
  - vm_compute. reflexivity.
  - reflexivity.
  - reflexivity.
  - reflexivity.
Defined.

Lemma expired_entries_linger_until_swept_witness :
  (exists w', Get "test" (Sample.stale_service, Sample.world ∅ Sample.all_well)
              = Some ((None, None), (Sample.stale_service, w')))
  /\ (exists n, ItemCount (Sample.stale_service, Sample.world ∅ Sample.all_well)
                = Some (S n, (Sample.stale_service, Sample.world ∅ Sample.all_well)))
  /\ (exists c1 w1,
        DeleteExpired (Sample.stale_service, Sample.world ∅ Sample.all_well)
          = Some (tt, (c1, w1))
        /\ items (cache c1) !! "test" = None).
Proof.
  destruct (expired_entries_linger_until_swept "test" Sample.stale_service
              (Sample.world ∅ Sample.all_well) Sample.old)
    as (Hget & _ & Hcount & c1 & w1 & Hsweep & Hgone & _).
  - vm_compute. reflexivity.
  - reflexivity.
  - reflexivity.
  - split; [exact Hget|]. split; [exact Hcount|]. exists c1, w1. split; assumption.
Defined.

Lemma Set_default_and_unlimited_duration_witness :
  (exists c1 w1,
     Set_ "test" "John" 0 (Sample.fresh Sample.accept, Sample.world ∅ Sample.all_well)
       = Some (None, (c1, w1))
     /\ items (cache c1) !! "test" = Some (mkItem "John" 1700000300000000000))
  /\ (exists c1 w1 w3,
        Set_ "test" "John" (-1) (Sample.fresh Sample.accept, Sample.world ∅ Sample.all_well)
          = Some (None, (c1, w1))
        /\ items (cache c1) !! "test" = Some (mkItem "John" 0)
        /\ Get "test" (c1, Sample.world ∅ Sample.all_well)
           = Some ((Some "John", None), (c1, w3))).
Proof.
  split.
  - destruct (Set_default_and_unlimited_duration "missing required"
                (Sample.config Sample.accept) Logger (Sample.fresh Sample.accept)
                "test" "John" 0 (Sample.world ∅ Sample.all_well))
      as (c1 & w1 & Hset & Hitem).
    + reflexivity.
    + discriminate.
    + exists c1, w1. split; [exact Hset | exact Hitem].
  - destruct (Set_default_and_unlimited_duration "missing required"
                (Sample.config Sample.accept) Logger (Sample.fresh Sample.accept)
                "test" "John" (-1) (Sample.world ∅ Sample.all_well))
      as (c1 & w1 & Hset & Hitem & Hget).
    + reflexivity.
    + discriminate.
    + destruct (Hget (Sample.world ∅ Sample.all_well)) as (w3 & Hget').
      exists c1, w1, w3. split; [exact Hset|]. split; [exact Hitem | exact Hget'].
Defined.

Lemma entry_is_swept_after_its_duration_witness :
  exists c1 w1 c2 w3,
    Set_ "test" "John" 1 (Sample.loaded_service, Sample.world ∅ Sample.all_well)
      = Some (None, (c1, w1))
    /\ DeleteExpired (c1, w1) = Some (tt, (c2, w3))
    /\ items (cache c2) !! "test" = None
    /\ items (cache c2) = items (cache Sample.loaded_service)
    /\ ItemCount (c2, w3) = Some (0%nat, (c2, w3)).
Proof.
  destruct (entry_is_swept_after_its_duration "test" "John" 1 Sample.loaded_service
              (Sample.world ∅ Sample.all_well)
              (set_ticks 2 (Sample.world ∅ Sample.all_well)))
    as (c1 & w1 & c2 & w3 & Hset & Hsweep & Hgone & _ & Hback).
  - reflexivity.
  - reflexivity.
  - reflexivity.
  - reflexivity.
  - destruct Hback as [Heq Hcount].
    { intros k' it' Hin. vm_compute in Hin. discriminate Hin. }
    assert (Hw1 : exists c1', Set_ "test" "John" 1
                    (Sample.loaded_service, Sample.world ∅ Sample.all_well)
                  = Some (None, (c1', set_ticks 2 (Sample.world ∅ Sample.all_well))))
      by (eexists; reflexivity).
    destruct Hw1 as [c1' Hw1]. rewrite Hw1 in Hset. injection Hset as <- <-.
    exists c1', (set_ticks 2 (Sample.world ∅ Sample.all_well)), c2, w3.
    repeat split; assumption.
Defined.

Lemma Delete_removes_the_key_witness :
  exists c1 w1 w3,
    Delete "test" (Sample.dirty_service, Sample.world ∅ Sample.all_well)
      = Some (tt, (c1, w1))
    /\ items (cache c1) !! "test" = None
    /\ Get "test" (c1, Sample.world ∅ Sample.all_well) = Some ((None, None), (c1, w3))
    /\ ItemCount (c1, w1) = Some (0%nat, (c1, w1)).
Proof.
  destruct (Delete_removes_the_key "test" Sample.dirty_service
              (Sample.world ∅ Sample.all_well))
    as (c1 & w1 & Hdel & Hgone & _ & Hget & Hcount & _).
  destruct (Hget (Sample.world ∅ Sample.all_well)) as (w3 & Hget').
  exists c1, w1, w3. split; [exact Hdel|]. split; [exact Hgone|].
  split; [exact Hget'|]. rewrite Hcount. vm_compute. reflexivity.
Defined.

Lemma constructors_refuse_an_incomplete_configuration_witness :
  (exists e,
     NewCacheService (fun o => o) "missing required"
       (mkCacheConfig "" "delivery" (Some Sample.accept) 0 0) (Some Logger)
       (Sample.world ∅ Sample.all_well)
     = Some (Err e, Sample.world ∅ Sample.all_well))
  /\ (exists e,
        NewWithCloudBackup (fun o => o) "missing required"
          (mkCacheConfig "" "delivery" (Some Sample.accept) 0 0) Sample.backend
          (Some Logger) (Sample.world ∅ Sample.all_well)
        = Some (Err e, Sample.world ∅ Sample.all_well)).
Proof.
  apply (constructors_refuse_an_incomplete_configuration (fun o => o) "missing required"
           (mkCacheConfig "" "delivery" (Some Sample.accept) 0 0) (Some Logger)
           Sample.backend (Sample.world ∅ Sample.all_well)).
  left. reflexivity.
Defined.

Lemma NewWithCloudBackup_refuses_an_incomplete_backend_witness :
  NewWithCloudBackup (fun o => o) "missing required" (Sample.config Sample.accept)
    (mkStorageConfig "creds.json" "" None) (Some Logger) (Sample.world ∅ Sample.all_well)
  = Some (Err (NewAppError "missing bucket and cloud credentials"),
          Sample.world ∅ Sample.all_well)
  /\ NewWithCloudBackup (fun o => o) "missing required" (Sample.config Sample.accept)
       (mkStorageConfig "creds.json" "bucket" None) (Some Logger)
       (Sample.world ∅ Sample.no_new_client)
     = Some (Err (NewAppError "error creating cloud storage client"),
             set_trace (NewCloudStorageClient :: trace (Sample.world ∅ Sample.no_new_client))
               (Sample.world ∅ Sample.no_new_client))
  /\ NewWithCloudBackup (fun o => o) "missing required" (Sample.config Sample.accept)
       (mkStorageConfig "" "" (Some Client)) (Some Logger) (Sample.world ∅ Sample.all_well)
     = Some (Err (NewAppError "missing bucket information"), Sample.world ∅ Sample.all_well).
Proof.
  split; [|split].
  - apply (NewWithCloudBackup_refuses_an_incomplete_backend (fun o => o) "missing required"
             (Sample.config Sample.accept) Logger Sample.accept
             (mkStorageConfig "creds.json" "" None) (Sample.world ∅ Sample.all_well)).
    + discriminate.
    + reflexivity.
    + reflexivity.
    + left. reflexivity.
  - apply (NewWithCloudBackup_refuses_an_incomplete_backend (fun o => o) "missing required"
             (Sample.config Sample.accept) Logger Sample.accept
             (mkStorageConfig "creds.json" "bucket" None)
             (Sample.world ∅ Sample.no_new_client)).
    + discriminate.
    + reflexivity.
    + reflexivity.
    + discriminate.
    + discriminate.
    + reflexivity.
  - apply (NewWithCloudBackup_refuses_an_incomplete_backend (fun o => o) "missing required"
             (Sample.config Sample.accept) Logger Sample.accept
             (mkStorageConfig "" "" (Some Client)) (Sample.world ∅ Sample.all_well)).
    + discriminate.
    + reflexivity.
    + exists Client. reflexivity.
    + reflexivity.
Defined.

Lemma saveFile_failures_witness :
  (exists w',
     saveFile (Sample.dirty_service, Sample.world ∅ Sample.no_stat)
     = Some (Some (WrapError (CallError (OsStat (fileDir Sample.dirty_service)))
                     ERROR_CREATING_CACHE_DIR), (Sample.dirty_service, w'))
     /\ files w' = files (Sample.world ∅ Sample.no_stat)
     /\ trace w' = OsStat (fileDir Sample.dirty_service)
                     :: trace (Sample.world ∅ Sample.no_stat))
  /\ (exists w',
        saveFile (Sample.dirty_service, Sample.bare_world Sample.no_mkdir)
        = Some (Some (WrapError (CallError (OsMkdirAll (fileDir Sample.dirty_service)))
                        ERROR_CREATING_CACHE_DIR), (Sample.dirty_service, w'))
        /\ files w' = files (Sample.bare_world Sample.no_mkdir))
  /\ (exists w',
        saveFile (Sample.dirty_service,
                  Sample.world {[Sample.path := Snapshot ∅]} Sample.no_create)
        = Some (Some (WrapError (CallError (OsCreate (filePath Sample.dirty_service)))
                        ERROR_GETTING_CACHE_FILE), (Sample.dirty_service, w'))
        /\ files w' = files (Sample.world {[Sample.path := Snapshot ∅]} Sample.no_create))
  /\ (exists w',
        saveFile (Sample.dirty_service,
                  Sample.world {[Sample.path := Snapshot ∅]} Sample.no_encode)
        = Some (Some (WrapError (CallError JsonEncode) ERROR_SAVING_CACHE_FILE),
                (Sample.dirty_service, w'))
        /\ files w' !! filePath Sample.dirty_service = Some Unparsable).
Proof.
  split; [|split; [|split]].
  - apply (proj1 (saveFile_failures Sample.dirty_service (Sample.world ∅ Sample.no_stat))).
    reflexivity.
  - apply (proj1 (proj2 (saveFile_failures Sample.dirty_service
                           (Sample.bare_world Sample.no_mkdir)))).
    + reflexivity.
    + vm_compute. reflexivity.
    + reflexivity.
  - apply (proj1 (proj2 (proj2 (saveFile_failures Sample.dirty_service
                                  (Sample.world {[Sample.path := Snapshot ∅]}
                                     Sample.no_create))))).
    + reflexivity.
    + left. vm_compute. reflexivity.
    + reflexivity.
  - apply (proj2 (proj2 (proj2 (saveFile_failures Sample.dirty_service
                                  (Sample.world {[Sample.path := Snapshot ∅]}
                                     Sample.no_encode))))).
    + reflexivity.
    + left. vm_compute. reflexivity.
    + reflexivity.
    + reflexivity.
Defined.

Lemma Sample_monotone (w : @World string) :
  clock w = Sample.clock -> monotone_clock w.
Proof.
  intros Hck i j Hij. rewrite Hck.
  pose proof (Sample_clock_monotone ∅ Sample.all_well i j Hij) as H. exact H.
Qed.

Lemma saveFile_then_loadFile_witness :
  exists w1 c0' w2' i j,
    saveFile (Sample.latin1_service, Sample.world ∅ Sample.all_well)
      = Some (None, (Sample.latin1_service, w1))
    /\ files w1 !! Sample.path
       = Some (Snapshot (<["test" := Sample.john]> {[Sample.replaced_key := Sample.jane]}))
    /\ loadFile (fun o => o)
         (Sample.fresh Sample.accept,
          Sample.world
            {[Sample.path :=
                Snapshot (<["test" := Sample.john]> {[Sample.replaced_key := Sample.jane]})]}
            Sample.all_well)
       = Some (None, (c0', w2'))
    /\ items (cache c0') !! "test"
       = Some (mkItem "John" (UnixNano (Sample.clock i + 5 * Hour)))
    /\ items (cache c0') !! Sample.latin1_key = None
    /\ items (cache c0') !! Sample.replaced_key
       = Some (mkItem "Jane" (UnixNano (Sample.clock j + 5 * Hour))).
Proof.
  destruct (saveFile_then_loadFile (fun o => o) Sample.accept Sample.latin1_service
              (Sample.world ∅ Sample.all_well))
    as (w1 & Hsave & _ & Hload).
  { repeat split; reflexivity. }
  assert (Hw1 : exists w1',
            saveFile (Sample.latin1_service, Sample.world ∅ Sample.all_well)
              = Some (None, (Sample.latin1_service, w1'))
            /\ files w1' !! Sample.path
               = Some (Snapshot (<["test" := Sample.john]>
                                   {[Sample.replaced_key := Sample.jane]}))).
  { eexists. split; vm_compute; reflexivity. }
  destruct Hw1 as (w1' & Hsave' & Hfile). rewrite Hsave' in Hsave.
  injection Hsave as <-.
  destruct (Hload (Sample.fresh Sample.accept)
              (Sample.world
                 {[Sample.path :=
                     Snapshot (<["test" := Sample.john]>
                                 {[Sample.replaced_key := Sample.jane]})]}
                 Sample.all_well))
    as (c0' & w2' & Hrun & _ & Habsent & Hentries).
  - reflexivity.
  - change (filePath Sample.latin1_service) with Sample.path. rewrite Hfile.
    vm_compute. reflexivity.
  - reflexivity.
  - reflexivity.
  - reflexivity.
  - reflexivity.
  - reflexivity.
  - apply Sample_monotone. reflexivity.
  - destruct (Hentries "test" Sample.john "John") as (i & Hi).
    + vm_compute. reflexivity.
    + unfold live_at. cbn. lia.
    + intros k2 it2 Hk2 _.
      apply (written_alone_spec (items (cache Sample.latin1_service)) "test"
               ltac:(vm_compute; reflexivity) k2 it2 Hk2).
    + reflexivity.
    + left. reflexivity.
    + destruct (Hentries Sample.latin1_key Sample.jane "Jane") as (j & Hj).
      * vm_compute. reflexivity.
      * unfold live_at. cbn. lia.
      * intros k2 it2 Hk2 _.
        apply (written_alone_spec (items (cache Sample.latin1_service)) Sample.latin1_key
                 ltac:(vm_compute; reflexivity) k2 it2 Hk2).
      * reflexivity.
      * left. reflexivity.
      * exists w1', c0', w2', i, j. split; [exact Hsave'|]. split; [exact Hfile|].
        split; [exact Hrun|]. split; [exact Hi|]. split; [|exact Hj].
        apply Habsent. intros k it Hk _.
        apply (never_written_spec (items (cache Sample.latin1_service)) Sample.latin1_key
                 ltac:(vm_compute; reflexivity) k it Hk).
Defined.

Lemma loadFile_recovers_from_the_remote_copy_witness :
  exists c' w' i,
    loadFile (fun o => o)
      (Sample.fresh_backed Sample.accept,
       Sample.remote_world ∅
         {[("bucket", "delivery.json") := Snapshot {["test" := Sample.john]}]}
         Sample.all_well)
      = Some (None, (c', w'))
    /\ files w' !! Sample.path = Some (Snapshot {["test" := Sample.john]})
    /\ items (cache c') !! "test"
       = Some (mkItem "John" (UnixNano (Sample.clock i + 5 * Hour))).
Proof.
  destruct (loadFile_recovers_from_the_remote_copy (fun o => o) Sample.accept
              {["test" := Sample.john]} (Sample.fresh_backed Sample.accept)
              (Sample.remote_world ∅
                 {[("bucket", "delivery.json") := Snapshot {["test" := Sample.john]}]}
                 Sample.all_well))
    as (c' & w' & Hrun & Hfile & _ & _ & _ & Hentries).
  - exists Client. reflexivity.
  - vm_compute. reflexivity.
  - vm_compute. reflexivity.
  - intros call. reflexivity.
  - apply Sample_monotone. reflexivity.
  - reflexivity.
  - reflexivity.
  - destruct (Hentries "test" Sample.john "John") as (i & Hi).
    + vm_compute. reflexivity.
    + reflexivity.
    + left. reflexivity.
    + exists c', w', i. split; [exact Hrun|]. split; [exact Hfile | exact Hi].
Defined.

Lemma failed_download_leaves_an_empty_file_witness :
  exists w',
    loadFile (fun o => o)
      (Sample.fresh_backed Sample.accept, Sample.remote_world ∅ ∅ Sample.all_well)
    = Some (Some (WrapError (CallError DownloadFile)
                    "error getting cache file from storage"),
            (Sample.fresh_backed Sample.accept, w'))
    /\ files w' !! filePath (Sample.fresh_backed Sample.accept) = Some Unparsable
    /\ objects w' = objects (Sample.remote_world ∅ ∅ Sample.all_well)
    /\ ticks w' = ticks (Sample.remote_world ∅ ∅ Sample.all_well).
Proof.
  apply (failed_download_leaves_an_empty_file (fun o => o)
           (Sample.fresh_backed Sample.accept)
           (Sample.remote_world ∅ ∅ Sample.all_well)).
  - exists Client. reflexivity.
  - vm_compute. reflexivity.
  - reflexivity.
  - reflexivity.
  - reflexivity.
  - reflexivity.
  - left. vm_compute. reflexivity.
Defined.

Lemma Clear_uploads_the_snapshot_witness :
  exists w' before,
    Clear (Sample.dirty_backed_service, Sample.world ∅ Sample.all_well)
    = Some (None, (flushed Sample.dirty_backed_service, w'))
    /\ objects w' !! ("bucket", "delivery.json") = files w' !! Sample.path
    /\ trace w'
       = CloseClient :: UploadFile :: NewCloudFileRequest :: OsOpen Sample.path
           :: OsStat Sample.path :: JsonEncode :: OsCreate Sample.path :: before.
Proof.
  destruct (Clear_uploads_the_snapshot Sample.dirty_backed_service
              (Sample.world ∅ Sample.all_well))
    as (w' & before & Hrun & _ & Hsame & Htrace).
  - unfold dirty. cbn. lia.
  - exists Client. reflexivity.
  - repeat split; reflexivity.
  - reflexivity.
  - reflexivity.
  - reflexivity.
  - reflexivity.
  - exists w', before. split; [exact Hrun|]. split; [exact Hsame | exact Htrace].
Defined.

Lemma ClearFile_removes_the_copies_witness :
  ClearFile (Sample.dirty_service, Sample.world {[Sample.path := Snapshot ∅]} Sample.all_well)
  = Some (None,
          (Sample.dirty_service,
           set_files (base.delete (filePath Sample.dirty_service)
                        (files (Sample.world {[Sample.path := Snapshot ∅]} Sample.all_well)))
             (set_trace
                (OsRemove (filePath Sample.dirty_service)
                   :: OsStat (filePath Sample.dirty_service)
                   :: trace (Sample.world {[Sample.path := Snapshot ∅]} Sample.all_well))
                (Sample.world {[Sample.path := Snapshot ∅]} Sample.all_well))))
  /\ (exists w',
        ClearFile (Sample.dirty_backed_service,
                   Sample.remote_world {[Sample.path := Snapshot ∅]}
                     {[("bucket", "delivery.json") := Snapshot ∅]} Sample.all_well)
        = Some (None, (Sample.dirty_backed_service, w'))
        /\ files w' !! filePath Sample.dirty_backed_service = None
        /\ objects w' !! (Bucket (StoreConfig Sample.dirty_backed_service),
                          fileBase Sample.dirty_backed_service) = None).
Proof.
  split.
  - apply (proj1 (ClearFile_removes_the_copies (fun o => o) Sample.dirty_service
                    (Sample.world {[Sample.path := Snapshot ∅]} Sample.all_well)
                    ltac:(exists (Snapshot ∅); vm_compute; reflexivity)
                    eq_refl eq_refl)).
    reflexivity.
  - apply (proj2 (ClearFile_removes_the_copies (fun o => o) Sample.dirty_backed_service
                    (Sample.remote_world {[Sample.path := Snapshot ∅]}
                       {[("bucket", "delivery.json") := Snapshot ∅]} Sample.all_well)
                    ltac:(exists (Snapshot ∅); vm_compute; reflexivity)
                    eq_refl eq_refl)).
    + exists Client. reflexivity.
    + exists (Snapshot ∅). vm_compute. reflexivity.
    + reflexivity.
    + reflexivity.
Defined.

Lemma Clear_of_a_clean_service_saves_nothing_witness :
  Clear (Sample.loaded_service, Sample.world ∅ Sample.all_well)
  = Some (None, (flushed Sample.loaded_service, Sample.world ∅ Sample.all_well)).
Proof.
  apply (Clear_of_a_clean_service_saves_nothing Sample.loaded_service
           (Sample.world ∅ Sample.all_well)).
  unfold dirty. cbn. lia.
Defined.

Lemma Set_in_the_second_of_the_load_is_not_saved_witness :
  exists c1 w1,
    Set_ "test" "John" (5 * Minute) (Sample.loaded_service, Sample.world ∅ Sample.all_well)
      = Some (None, (c1, w1))
    /\ is_Some (items (cache c1) !! "test")
    /\ Updated (c1, w1) = Some (false, (c1, w1))
    /\ Clear (c1, w1) = Some (None, (flushed c1, w1))
    /\ files w1 = files (Sample.world ∅ Sample.all_well).
Proof.
  apply (Set_in_the_second_of_the_load_is_not_saved "test" "John" (5 * Minute)
           Sample.loaded_service (Sample.world ∅ Sample.all_well)).
  - reflexivity.
  - reflexivity.
  - vm_compute. reflexivity.
  - reflexivity.
Defined.

Lemma Clear_keeps_the_local_snapshot_when_the_upload_fails_witness :
  exists w' before,
    Clear (Sample.dirty_backed_service, Sample.world ∅ Sample.no_upload)
    = Some (Some (CallError UploadFile), (Sample.dirty_backed_service, w'))
    /\ files w' !! filePath Sample.dirty_backed_service
       = Some (Snapshot
                 (json_members
                    (filter (fun kv =>
                               live_at (UnixNano (clock (Sample.world ∅ Sample.no_upload)
                                                    (ticks (Sample.world ∅ Sample.no_upload))))
                                 kv.2)
                       (items (cache Sample.dirty_backed_service)))))
    /\ objects w' = objects (Sample.world ∅ Sample.no_upload)
    /\ trace w' = UploadFile :: before.
Proof.
  apply (Clear_keeps_the_local_snapshot_when_the_upload_fails Sample.dirty_backed_service
           (Sample.world ∅ Sample.no_upload)).
  - unfold dirty. cbn. lia.
  - exists Client. reflexivity.
  - repeat split; reflexivity.
  - reflexivity.
  - reflexivity.
  - reflexivity.
  - reflexivity.
Defined.
